(** * evaluate.py: the SemanticKITTI evaluation driver

    A shallow embedding of [src/evaluate.py] and the properties its
    specification states about it.  The script is glue around external
    collaborators (torch, numpy, torchpack, the operating system); the
    parts of those collaborators the script calls are given small
    executable models in the modules [Py], [Np], [Torch] and [Os], and the
    script itself is embedded in the module [Evaluate], one definition per
    block of [main]. *)

From Stdlib Require Import ZArith Lia Ascii String DecimalString.
From stdpp Require Import base option list gmap strings.
From stdpp Require Import sorting.

Local Open Scope Z_scope.

(** ** Exceptions *)

Inductive exn : Set :=
  | NotImplementedError
  | IndexError
  | RuntimeError
  | AttributeError
  | TypeError
  | KeyError
  | FileExistsError
  | FileNotFoundError
  | NotADirectoryError
  | IsADirectoryError.

(** Where an exception comes from: a [raise] statement written in the
    script, or a call into a library that the script lets propagate. *)
Inductive origin : Set := Script | Library.

Inductive result (A : Type) : Type :=
  | Ok (a : A)
  | Err (o : origin) (e : exn).
Arguments Ok {A} a.
Arguments Err {A} o e.

#[global] Instance result_ret : MRet result := fun A a => Ok a.
#[global] Instance result_bind : MBind result := fun A B f m =>
  match m with
  | Ok a => f a
  | Err o e => Err o e
  end.

(** A library call that fails. *)
Definition throw {A} (e : exn) : result A := Err Library e.

Definition of_option {A} (e : exn) (o : option A) : result A :=
  match o with
  | Some a => Ok a
  | None => throw e
  end.

(** A computation none of whose failures is a [raise] of the script. *)
Definition from_library {A} (m : result A) : Prop :=
  forall e, m <> Err Script e.

(** What a call into a collaborator comes back with: a value, or an
    exception raised inside the collaborator. *)
Inductive outcome (A : Type) : Type :=
  | Returns (a : A)
  | Raises (e : exn).
Arguments Returns {A} a.
Arguments Raises {A} e.

(** ** Python built-ins used by the script *)

Module Py.

(** [range(n)] for an integer [n]: empty when [n <= 0]. *)
Definition range (n : Z) : list Z := Z.of_nat <$> seq 0 (Z.to_nat n).

(** [xs[i]] with Python's negative indices. *)
Definition index {A} (xs : list A) (i : Z) : result A :=
  let n := Z.of_nat (length xs) in
  if bool_decide (0 <= i < n) then of_option IndexError (xs !! Z.to_nat i)
  else if bool_decide (- n <= i < 0) then of_option IndexError (xs !! Z.to_nat (n + i))
  else throw IndexError.

(** A text is held as the bytes of its UTF-8 encoding; a text is part of
    another exactly when its bytes are part of the bytes of the other.

    [str.lower()] lower-cases with the tables of the Unicode character
    database: the Kelvin sign, for one, becomes [k].  The tables are not
    part of this development, and the script is embedded for any function
    [lower] on texts in their place.  On a text of ASCII characters
    [str.lower()] is [lower_ascii_text], the [lower] of the samples. *)
Definition lower_ascii (c : ascii) : ascii :=
  let n := nat_of_ascii c in
  if bool_decide (65 <= n <= 90)%nat then ascii_of_nat (n + 32) else c.

Fixpoint lower_ascii_text (s : string) : string :=
  match s with
  | EmptyString => EmptyString
  | String c s' => String (lower_ascii c) (lower_ascii_text s')
  end.

(** [sub in s] for strings. *)
Fixpoint contains (sub s : string) : bool :=
  String.prefix sub s ||
  match s with
  | EmptyString => false
  | String _ s' => contains sub s'
  end.

(** [s.split(sep)] for a one-character separator: the pieces between the
    separators, empty pieces kept, never the empty list. *)
Fixpoint split (sep : ascii) (s : string) : list string :=
  match s with
  | EmptyString => [EmptyString]
  | String c s' =>
      if bool_decide (c = sep) then EmptyString :: split sep s'
      else match split sep s' with
           | p :: ps => String c p :: ps
           | [] => [String c EmptyString]
           end
  end.

(** [s.replace(old, new)]: every occurrence of [old], left to right and
    without overlap.  [skip] counts the characters of a matched
    occurrence that are still to be dropped. *)
Fixpoint replace_from (skip : nat) (old new s : string) : string :=
  match s with
  | EmptyString => EmptyString
  | String c s' =>
      match skip with
      | S k => replace_from k old new s'
      | O =>
          if String.prefix old s
          then new +:+ replace_from (String.length old - 1) old new s'
          else String c (replace_from 0 old new s')
      end
  end.

Definition replace (old new s : string) : string :=
  match old with
  | EmptyString =>
      new +:+ String.concat new
                ((fun c => String c EmptyString) <$> String.list_ascii_of_string s)
          +:+ (if bool_decide (s = EmptyString) then EmptyString else new)
  | _ => replace_from 0 old new s
  end.

(** [f"{i:02d}"]: decimal, padded with zeros to a width of two; the sign
    of a negative number counts for the width. *)
Definition format_02d (i : Z) : string :=
  let d := NilEmpty.string_of_uint (N.to_uint (Z.to_N (Z.abs i))) in
  if bool_decide (i < 0) then "-" +:+ d
  else if bool_decide (String.length d < 2)%nat then "0" +:+ d else d.

End Py.

(** ** numpy: unsigned 32-bit arrays *)

Module Np.

Definition u32_modulus : Z := 2 ^ 32.

(** The value a Python integer takes in a [uint32] cell. *)
Definition u32 (z : Z) : Z := z mod u32_modulus.

(** [a.astype(np.uint32)] *)
Definition astype_uint32 (a : list Z) : list Z := u32 <$> a.

(** [np.zeros_like(a)] *)
Definition zeros_like (a : list Z) : list Z := (fun _ => 0) <$> a.

(** [a << k] on a [uint32] array *)
Definition lshift (a : list Z) (k : Z) : list Z := (fun x => u32 (Z.shiftl x k)) <$> a.

(** [a + b] on [uint32] arrays of one shape *)
Definition add (a b : list Z) : list Z := zip_with (fun x y => u32 (x + y)) a b.

(** The four bytes of a [uint32] cell in memory, least significant
    first (the byte order of the machines the script runs on). *)
Definition bytes_of_u32 (w : Z) : list Z :=
  [w mod 256; (w / 256) mod 256; (w / 65536) mod 256; (w / 16777216) mod 256].

(** What [a.tofile(path)] puts in the file: the cells of [a], in order. *)
Definition tobytes (a : list Z) : list Z := a ≫= bytes_of_u32.

(** Reading the file back, [np.fromfile(path, dtype=np.uint32)]. *)
Fixpoint frombytes (bs : list Z) : list Z :=
  match bs with
  | b0 :: b1 :: b2 :: b3 :: rest =>
      (b0 + 256 * b1 + 65536 * b2 + 16777216 * b3) :: frombytes rest
  | _ => []
  end.

End Np.

(** ** torch: the tensor operations of the evaluation loop *)

Module Torch.

(** A row of the coordinate matrix [C] of a sparse tensor: the voxel
    position and, in the last column, the index of the scene in the
    batch. *)
Record coord : Set := Coord { cx : Z; cy : Z; cz : Z; cb : Z }.

(** A sparse tensor: coordinates [C] and, row for row, features [F]. *)
Record SparseTensor (A : Type) : Type := Sparse { C : list coord; F : list A }.
Arguments Sparse {A} C F.
Arguments C {A} s.
Arguments F {A} s.

(** [C[:, -1]] *)
Definition last_column (c : list coord) : list Z := cb <$> c.

(** [t == idx], element by element *)
Definition eq_scalar (t : list Z) (idx : Z) : list bool :=
  (fun b => bool_decide (b = idx)) <$> t.

(** [t.max()] of a one-dimensional integer tensor *)
Definition max (t : list Z) : result Z :=
  match t with
  | [] => throw RuntimeError
  | x :: xs => Ok (foldl Z.max x xs)
  end.

(** [t[mask]] for a boolean mask over the first dimension *)
Fixpoint select {A} (mask : list bool) (t : list A) : list A :=
  match mask, t with
  | b :: mask', x :: t' => if b then x :: select mask' t' else select mask' t'
  | _, _ => []
  end.

Definition mask_index {A} (t : list A) (mask : list bool) : result (list A) :=
  if bool_decide (length mask = length t) then Ok (select mask t)
  else throw IndexError.

(** [t[idx]] for an array of integer indices: the rows of [t] at these
    indices, negative indices counted from the end. *)
Definition gather {A} (t : list A) (idx : list Z) : result (list A) :=
  mapM (M := result) (Py.index t) idx.

(** [torch.cat(ts, 0)] of one-dimensional tensors *)
Definition cat {A} (ts : list (list A)) : result (list A) :=
  match ts with
  | [] => throw RuntimeError
  | _ => Ok (concat ts)
  end.

Section Argmax.
Context {score : Type} (gtb : score -> score -> bool).

(** Scan of one row: [best] is the largest score seen so far and
    [best_i] the first position it was seen at. *)
Fixpoint argmax_from (best_i : nat) (best : score) (i : nat) (row : list score) : nat :=
  match row with
  | [] => best_i
  | x :: row' =>
      if gtb x best then argmax_from i x (S i) row'
      else argmax_from best_i best (S i) row'
  end.

(** The position of the first largest score of a row; a row without
    scores has none. *)
Definition argmax_row (row : list score) : result Z :=
  match row with
  | [] => throw IndexError
  | x :: row' => Ok (Z.of_nat (argmax_from 0 x 1 row'))
  end.

(** [t.argmax(1)] of a two-dimensional tensor, row by row *)
Definition argmax1 (t : list (list score)) : result (list Z) :=
  mapM (M := result) argmax_row t.
End Argmax.

End Torch.

(** ** The file system behind [os.path.exists], [os.makedirs] and [tofile] *)

Module Os.

Inductive node : Set :=
  | Dir
  | File (content : list Z).

#[global] Instance node_eq_dec : EqDecision node.
Proof. solve_decision. Defined.

(** A file system maps the resolved paths that exist to what is there.
    A path is resolved to its components; an absolute path keeps the
    empty component in front.  The root and the working directory are
    always there.  There are no symbolic links.  A component [..] is kept
    as a name, where the operating system goes up a directory: the model
    is the operating system's for the paths without [..], and a property
    that does not hold of the operating system beyond them has the
    absence of [..] among its hypotheses. *)
Abbreviation fsys := (gmap (list string) node).

Definition proper_component (c : string) : bool :=
  negb (bool_decide (c = "" :> string)) && negb (bool_decide (c = "." :> string)).

Definition resolve (p : string) : list string :=
  match Py.split "/" p with
  | c :: cs =>
      (if bool_decide (c = "" :> string) then [""%string]
       else if bool_decide (c = "." :> string) then []
       else [c]) ++ List.filter proper_component cs
  | [] => []
  end.

(** A component that names an entry of a directory. *)
Definition entry_name (c : string) : Prop :=
  Py.split "/" c = [c] /\ c <> ""%string /\ c <> "."%string /\ c <> ".."%string.

Definition node_at (fs : fsys) (q : list string) : option node :=
  if bool_decide (q = [] \/ q = [""%string]) then Some Dir else fs !! q.

(** [os.path.exists(p)] *)
Definition path_exists (p : string) (fs : fsys) : bool :=
  negb (bool_decide (p = "" :> string)) &&
  bool_decide (is_Some (node_at fs (resolve p))).

(** The path itself and the directories above it, outermost first. *)
Definition prefixes (q : list string) : list (list string) :=
  (fun n => take n q) <$> seq 1 (length q).

Definition is_file (fs : fsys) (q : list string) : bool :=
  match node_at fs q with
  | Some (File _) => true
  | _ => false
  end.

Definition mkdir_missing (fs : fsys) (q : list string) : fsys :=
  match node_at fs q with
  | Some _ => fs
  | None => <[q := Dir]> fs
  end.

(** [os.makedirs(p)]: the leaf directory and every directory needed to
    contain it; the leaf must not exist. *)
Definition makedirs (p : string) (fs : fsys) : result fsys :=
  if bool_decide (p = "" :> string) then throw FileNotFoundError
  else
    let q := resolve p in
    if bool_decide (is_Some (node_at fs q)) then throw FileExistsError
    else if existsb (is_file fs) (prefixes q) then throw NotADirectoryError
    else Ok (foldl mkdir_missing fs (prefixes q)).

(** Opening [p] for writing and writing [content]: the directory of [p]
    must exist, and [p] must not be a directory. *)
Definition write_file (p : string) (content : list Z) (fs : fsys) : result fsys :=
  if bool_decide (p = "" :> string) then throw FileNotFoundError
  else
    let q := resolve p in
    match node_at fs (removelast q) with
    | None => throw FileNotFoundError
    | Some (File _) => throw NotADirectoryError
    | Some Dir =>
        match node_at fs q with
        | Some Dir => throw IsADirectoryError
        | _ => Ok (<[q := File content]> fs)
        end
    end.

(** A call that leaves what is at [q] and under it as it is. *)
Definition leaves {A} (q : list string) (call : fsys -> fsys * A) : Prop :=
  forall fs r, q `prefix_of` r -> node_at (call fs).1 r = node_at fs r.

End Os.

(** ** The script *)

Module Evaluate.
Import Torch.

(** The command line, as [argparse] leaves it in [args]: an option that
    was not given is [None]. *)
Record Args : Set := {
  config : string;
  run_dir : option string;
  name : option string;
  save_dir : option string
}.

(** The entries of [configs] the script reads. *)
Record Configs : Set := {
  distributed : bool;
  batch_size : Z;
  workers_per_gpu : Z
}.

(** [a + b] where [a] is a command-line option. *)
Definition opt_add (a : option string) (b : string) : result string :=
  match a with
  | Some a => Ok (a +:+ b)
  | None => throw TypeError
  end.

(** *** Lines 38-41: one output directory per sequence *)

Definition directory_name (i : Z) : string := Py.format_02d i.

(** The path the loop tests and creates at index [i], for a given
    [--save-dir]. *)
Definition dir_path (s : string) (i : Z) : string := (s +:+ "/") +:+ directory_name i.

Fixpoint setup_loop (sd : option string) (idxs : list Z) (fs : Os.fsys)
  : Os.fsys * result unit :=
  match idxs with
  | [] => (fs, Ok ())
  | i :: rest =>
      match opt_add sd "/" with
      | Err o e => (fs, Err o e)
      | Ok sd_slash =>
          let p := sd_slash +:+ directory_name i in
          if negb (Os.path_exists p fs) then
            match Os.makedirs p fs with
            | Err o e => (fs, Err o e)
            | Ok fs' => setup_loop sd rest fs'
            end
          else setup_loop sd rest fs
      end
  end.

Definition setup_dirs (args : Args) (fs : Os.fsys) : Os.fsys * result unit :=
  setup_loop (save_dir args) (Py.range 11) fs.

(** The names of the sequences [00] to [10]. *)
Definition sequence_names : list string :=
  ["00"; "01"; "02"; "03"; "04"; "05"; "06"; "07"; "08"; "09"; "10"]%string.

(** *** Lines 60-74: one data loader per split *)

Section Dataflow.
Context {Dataset : Type}.

Record DistributedSampler : Type := {
  sampler_dataset : Dataset;
  num_replicas : Z;
  rank : Z;
  shuffle : bool
}.

Record DataLoader : Type := {
  loader_dataset : Dataset;
  loader_batch_size : Z;
  sampler : DistributedSampler;
  num_workers : Z;
  pin_memory : bool
}.

(** [dist.size()] and [dist.rank()] *)
Context (dist_size dist_rank : Z).
Context (configs : Configs).

Definition make_loader (split : string) (ds : Dataset) : DataLoader :=
  let sampler := {| sampler_dataset := ds;
                    num_replicas := dist_size;
                    rank := dist_rank;
                    shuffle := bool_decide (split = "train" :> string) |} in
  {| loader_dataset := ds;
     loader_batch_size :=
       if bool_decide (split = "train" :> string) then batch_size configs else 1;
     sampler := sampler;
     num_workers := workers_per_gpu configs;
     pin_memory := true |}.

(** The loop over the splits of [dataset], a dict listed in the order
    of its keys, filling the dict [dataflow]. *)
Fixpoint dataflow_loop (dataset : list (string * Dataset))
    (dataflow : gmap string DataLoader) : gmap string DataLoader :=
  match dataset with
  | [] => dataflow
  | (split, ds) :: rest =>
      dataflow_loop rest (<[split := make_loader split ds]> dataflow)
  end.

Definition make_dataflow (dataset : list (string * Dataset)) : gmap string DataLoader :=
  dataflow_loop dataset ∅.
End Dataflow.
Arguments DistributedSampler : clear implicits.
Arguments DataLoader : clear implicits.

(** *** Lines 76-83: the model, by name *)

Section Model.
Context {Model : Type}.
(** [str.lower] *)
Context (lower : string -> string).
(** The three constructors of the model zoo. *)
Context (spvnas_specialized spvcnn minkunet : string -> Model).

Definition select_model (args : Args) : result Model :=
  match name args with
  | None => throw AttributeError
  | Some name =>
      if Py.contains "spvnas" (lower name) then Ok (spvnas_specialized name)
      else if Py.contains "spvcnn" (lower name) then Ok (spvcnn name)
      else if Py.contains "mink" (lower name) then Ok (minkunet name)
      else Err Script NotImplementedError
  end.
End Model.

(** *** Lines 114-149: the evaluation loop *)

(** One batch, as the collate function of the data set builds it. *)
Record FeedDict (feat : Type) : Type := {
  lidar : SparseTensor feat;
  targets : SparseTensor Z;
  targets_mapped : SparseTensor Z;
  inverse_map : SparseTensor Z;
  file_name : list string
}.
Arguments lidar {feat} f.
Arguments targets {feat} f.
Arguments targets_mapped {feat} f.
Arguments inverse_map {feat} f.
Arguments file_name {feat} f.

Section Eval.
Context {feat score : Type} (gtb : score -> score -> bool).

(** Lines 131-135, the body of the loop over the scenes of a batch:
    the mapped outputs and targets of scene [idx]. *)
Definition scene_step (inputs : SparseTensor feat) (invs all_labels : SparseTensor Z)
    (outputs : list (list score)) (idx : Z) : result (list Z * list Z) :=
  let cur_scene_pts := eq_scalar (last_column (C inputs)) idx in
  cur_inv ← mask_index (F invs) (eq_scalar (last_column (C invs)) idx);
  let cur_label := eq_scalar (last_column (C all_labels)) idx in
  scene ← mask_index outputs cur_scene_pts;
  rows ← gather scene cur_inv;
  outputs_mapped ← argmax1 gtb rows;
  targets_mapped ← mask_index (F all_labels) cur_label;
  Ok (outputs_mapped, targets_mapped).

(** Lines 130-137: the loop, appending to the lists [_outputs] and
    [_targets] held in [acc]. *)
Fixpoint scene_loop (inputs : SparseTensor feat) (invs all_labels : SparseTensor Z)
    (outputs : list (list score)) (idxs : list Z)
    (acc : list (list Z) * list (list Z)) : result (list (list Z) * list (list Z)) :=
  match idxs with
  | [] => Ok acc
  | idx :: rest =>
      m ← scene_step inputs invs all_labels outputs idx;
      scene_loop inputs invs all_labels outputs rest (acc.1 ++ [m.1], acc.2 ++ [m.2])
  end.

(** Lines 126-139: the predictions of the voxels, brought back to the
    points of the scenes. *)
Definition map_outputs (fd : FeedDict feat) (outputs : list (list score))
  : result (list Z * list Z) :=
  let inputs := lidar fd in
  let invs := inverse_map fd in
  let all_labels := targets_mapped fd in
  n ← Torch.max (last_column (C invs));
  acc ← scene_loop inputs invs all_labels outputs (Py.range (n + 1)) ([], []);
  outputs ← cat acc.1;
  targets ← cat acc.2;
  Ok (outputs, targets).

(** Lines 143-144 *)
Definition output_file_name (sd : option string) (fd : FeedDict feat) : result string :=
  first ← Py.index (file_name fd) 0;
  let abs_input_path := Py.split "/" first in
  sd_slash ← opt_add sd "/";
  sequence ← Py.index abs_input_path (-3);
  base ← Py.index abs_input_path (-1);
  Ok (sd_slash +:+ sequence +:+ "/" +:+ Py.replace ".bin" ".label" base).

(** Line 147 in one cell: [sem + (ins << 16)] on [uint32] values. *)
Definition encode (sem ins : Z) : Z := Np.u32 (sem + Np.u32 (Z.shiftl ins 16)).

(** Lines 145-147 *)
Definition pred_eval (outputs : list Z) : list Z :=
  let sem := Np.astype_uint32 outputs in
  let ins := Np.astype_uint32 (Np.zeros_like sem) in
  Np.add sem (Np.lshift ins 16).

(** One turn of the loop over the batches, lines 126-148, given the
    scores [outputs] of the model for the batch.  The call of the
    callbacks in line 141 reads the mapped outputs and targets and leaves
    them as they are; the mean IoU it accumulates is not part of this
    development. *)
Definition eval_step (sd : option string) (fd : FeedDict feat)
    (outputs : list (list score)) (fs : Os.fsys) : result Os.fsys :=
  mapped ← map_outputs fd outputs;
  output_file ← output_file_name sd fd;
  Os.write_file output_file (Np.tobytes (Np.astype_uint32 (pred_eval mapped.1))) fs.

(** The loop over the batches of the test split, lines 115-148; line 124
    is the call of the model. *)
Fixpoint eval_loop (sd : option string) (model : SparseTensor feat -> list (list score))
    (batches : list (FeedDict feat)) (fs : Os.fsys) : Os.fsys * result unit :=
  match batches with
  | [] => (fs, Ok ())
  | feed_dict :: rest =>
      match eval_step sd feed_dict (model (lidar feed_dict)) fs with
      | Err o e => (fs, Err o e)
      | Ok fs' => eval_loop sd model rest fs'
      end
  end.

(** *** [main]

    The blocks above in the order of the script, and between them the
    calls into torchpack, the builders and the trainer.  What these
    calls do is theirs: each is given by the file system it leaves and
    the value it returns or the exception it raises. *)

Context {Dataset : Type}.
(** [opts] of line 36, the part of the command line the parser does not
    know. *)
Context (opts : list string).
(** [str.lower] *)
Context (lower : string -> string).
(** Lines 43-58: [configs.load(args.config, recursive=True)] and
    [configs.update(opts)]; with [configs.distributed], [dist.init()] and
    the choice of the CUDA device; the run directory, by
    [auto_set_run_dir()] without [--run-dir] and by
    [set_run_dir(args.run_dir)] with it; the two lines of the log.  They
    leave the configuration. *)
Context (start_up : string -> list string -> option string -> Os.fsys
                    -> Os.fsys * outcome Configs).
(** [builder.make_dataset()], the splits in the order of the dict. *)
Context (dataset : list (string * Dataset)).
(** The batches a data loader yields. *)
Context (batches_of : DataLoader Dataset -> list (FeedDict feat)).
(** [dist.size()] and [dist.rank()] *)
Context (dist_size dist_rank : Z).
Context (spvnas_specialized spvcnn minkunet
           : string -> SparseTensor feat -> list (list score)).
(** Lines 85-107: with [configs.distributed] the model wrapped for data
    parallelism, which computes what the model computes; the criterion,
    the optimizer, the scheduler, the trainer and its callbacks. *)
Context (make_trainer : Configs -> (SparseTensor feat -> list (list score)) -> Os.fsys
                        -> Os.fsys * outcome unit).
(** Lines 110-111: [trainer.before_train()] and [trainer.before_epoch()]. *)
Context (before_epoch : Os.fsys -> Os.fsys * outcome unit).
(** Line 149: [trainer.after_epoch()]. *)
Context (after_epoch : Os.fsys -> Os.fsys * outcome unit).

Definition main (args : Args) (fs : Os.fsys) : Os.fsys * result unit :=
  match setup_dirs args fs with
  | (fs1, Err o e) => (fs1, Err o e)
  | (fs1, Ok _) =>
  match start_up (config args) opts (run_dir args) fs1 with
  | (fs2, Raises e) => (fs2, throw e)
  | (fs2, Returns configs) =>
  let dataflow := make_dataflow dist_size dist_rank configs dataset in
  match select_model lower spvnas_specialized spvcnn minkunet args with
  | Err o e => (fs2, Err o e)
  | Ok model =>
  match make_trainer configs model fs2 with
  | (fs3, Raises e) => (fs3, throw e)
  | (fs3, Returns _) =>
  (* line 108 *)
  match dataflow !! "test"%string with
  | None => (fs3, throw KeyError)
  | Some loader =>
  match before_epoch fs3 with
  | (fs4, Raises e) => (fs4, throw e)
  | (fs4, Returns _) =>
  match eval_loop (save_dir args) model (batches_of loader) fs4 with
  | (fs5, Err o e) => (fs5, Err o e)
  | (fs5, Ok _) =>
  match after_epoch fs5 with
  | (fs6, Raises e) => (fs6, throw e)
  | (fs6, Returns _) => (fs6, Ok ())
  end end end end end end end end.
End Eval.

End Evaluate.

(** ** Lines 116-121: the inputs of the model *)

Module Inputs.

Inductive device : Set := Cpu | Cuda.

(** An entry of a batch: a tensor, on a device, or a list of names, which
    has no method [cuda]. *)
Inductive value (T : Type) : Type :=
  | Tensor (d : device) (t : T)
  | Names (l : list string).
Arguments Tensor {T} d t.
Arguments Names {T} l.

(** [value.cuda()] *)
Definition cuda {T} (v : value T) : result (value T) :=
  match v with
  | Tensor _ t => Ok (Tensor Cuda t)
  | Names _ => throw AttributeError
  end.

(** Lines 116-119: the loop over [feed_dict.items()], filling the dict
    [_inputs]. *)
Fixpoint inputs_loop {T} (items : list (string * value T))
    (_inputs : gmap string (value T)) : result (gmap string (value T)) :=
  match items with
  | [] => Ok _inputs
  | (key, value) :: rest =>
      if negb (Py.contains "name" key) then
        v ← cuda value;
        inputs_loop rest (<[key := v]> _inputs)
      else inputs_loop rest _inputs
  end.

(** Lines 116-121: [inputs], the entry [lidar] of [_inputs]. *)
Definition prepare_inputs {T} (feed_dict : list (string * value T)) : result (value T) :=
  _inputs ← inputs_loop feed_dict ∅;
  of_option KeyError (_inputs !! "lidar"%string).

End Inputs.

(** ** The prediction of one point (lines 131-134) *)

Module Points.
Import Torch.

Section PointClass.
Context {feat score : Type} (gtb : score -> score -> bool).

(** [outputs[cur_scene_pts][cur_inv].argmax(1)] at one point [p] of the
    inverse map, given by its coordinate row and its index: the arg-max
    of the output row the index selects among the voxels of the scene
    of the point. *)
Definition point_class (inputs : SparseTensor feat) (outputs : list (list score))
    (p : coord * Z) (cls : Z) : Prop :=
  exists row,
    Py.index (select (eq_scalar (last_column (C inputs)) (cb p.1)) outputs) p.2 = Ok row /\
    argmax_row gtb row = Ok cls.
End PointClass.

End Points.

(** ** The specification, in its own words *)

Module Spec.

(** [s] with its suffix [old] replaced by [new]; [s] itself when it does
    not end in [old]. *)
Fixpoint replace_suffix (old new s : string) : string :=
  if bool_decide (s = old) then new
  else match s with
       | EmptyString => EmptyString
       | String c s' => String c (replace_suffix old new s')
       end.

(** [<save_dir>/<sequence>/<scan-id>.label], for a scan whose file is
    [base] in the directory of the sequence. *)
Definition label_path (save_dir sequence base : string) : string :=
  save_dir +:+ "/" +:+ sequence +:+ "/" +:+ replace_suffix ".bin" ".label" base.

(** The label of a point as the specification writes it:
    [semantic | (instance << 16)]. *)
Definition label (semantic instance : Z) : Z :=
  Z.lor semantic (Z.shiftl instance 16).

(** Decoding a label: the low 16 bits are the semantic part, the high 16
    bits the instance part. *)
Definition decode (w : Z) : Z * Z := (Z.land w (Z.ones 16), Z.shiftr w 16).

Section Mapped.
Context {score : Type} (gtb : score -> score -> bool).
Import Torch.

(** The rows of the model output whose coordinate has batch index
    [idx]. *)
Definition scene_rows (coords : list coord) (outputs : list (list score)) (idx : Z)
  : list (list score) :=
  snd <$> List.filter (fun p => bool_decide (cb p.1 = idx)) (zip coords outputs).

(** The inverse-map indices of scene [idx]: for each point of the
    scene, the row of the voxel it was binned into. *)
Definition scene_inverse (invs : SparseTensor Z) (idx : Z) : list Z :=
  snd <$> List.filter (fun p => bool_decide (cb p.1 = idx)) (zip (C invs) (F invs)).

(** The predicted class of the voxel at row [i] of a scene. *)
Definition voxel_class (rows : list (list score)) (i : Z) : option Z :=
  if bool_decide (0 <= i) then
    match rows !! Z.to_nat i with
    | Some (x :: row) => Some (Z.of_nat (argmax_from gtb 0 x 1 row))
    | _ => None
    end
  else None.

(** The mapped prediction of scene [idx]: point by point, the class of
    the voxel of the point. *)
Definition mapped_scene (coords : list coord) (outputs : list (list score))
    (invs : SparseTensor Z) (idx : Z) : option (list Z) :=
  mapM (voxel_class (scene_rows coords outputs idx)) (scene_inverse invs idx).

(** The scenes [0] to [n], one after the other. *)
Definition mapped (coords : list coord) (outputs : list (list score))
    (invs : SparseTensor Z) (n : Z) : option (list Z) :=
  @concat Z <$> mapM (mapped_scene coords outputs invs) (Py.range (n + 1)).
End Mapped.

End Spec.

(** ** Sample inputs *)

Module Sample.
Import Torch Evaluate.

Definition args : Args :=
  {| config := "configs/default.yaml"; run_dir := None;
     name := Some "SemanticKITTI_val_SPVNAS@65GMACs"%string;
     save_dir := Some "out"%string |}.

Definition configs : Configs :=
  {| distributed := true; batch_size := 8; workers_per_gpu := 4 |}.

(** A model zoo whose models give every voxel the score [k] for one
    class. *)
Definition zoo (k : Z) (name : string) (inputs : SparseTensor unit) : list (list Z) :=
  (fun _ => [k]) <$> C inputs.

(** A file system in which the directory of sequence 08 is there. *)
Definition out_dirs : Os.fsys :=
  <[["out"; "08"]%string := Os.Dir]> (<[["out"]%string := Os.Dir]> ∅).

Definition at_scene (b : Z) : coord := Coord 0 0 0 b.

(** A batch of two scenes: three voxels, four points. *)
Definition two_scenes : FeedDict unit :=
  {| lidar := Sparse [at_scene 0; at_scene 1; at_scene 0] [tt; tt; tt];
     targets := Sparse [at_scene 0; at_scene 1; at_scene 0] [4; 5; 6];
     targets_mapped := Sparse [at_scene 0; at_scene 0; at_scene 1; at_scene 0] [7; 8; 9; 7];
     inverse_map := Sparse [at_scene 0; at_scene 0; at_scene 1; at_scene 0] [1; 0; 0; 1];
     file_name := ["/data/sequences/08/velodyne/000123.bin"%string] |}.

Definition two_scenes_outputs : list (list Z) := [[1; 5; 2]; [9; 0; 0]; [0; 0; 3]].

(** A batch of one scan with one voxel and one point, and scores for
    65537 classes, the last of them the largest. *)
Definition one_point : FeedDict unit :=
  {| lidar := Sparse [at_scene 0] [tt];
     targets := Sparse [at_scene 0] [0];
     targets_mapped := Sparse [at_scene 0] [0];
     inverse_map := Sparse [at_scene 0] [0];
     file_name := ["/data/sequences/08/velodyne/000123.bin"%string] |}.

Definition wide_row : list Z := replicate (Z.to_nat 65536) 0 ++ [1].

(** A scan of one voxel and one point whose file name has [.bin] in it
    twice. *)
Definition twice_bin : FeedDict unit :=
  {| lidar := Sparse [at_scene 0] [tt];
     targets := Sparse [at_scene 0] [0];
     targets_mapped := Sparse [at_scene 0] [0];
     inverse_map := Sparse [at_scene 0] [0];
     file_name := ["/data/sequences/08/velodyne/a.bin.bin"%string] |}.
End Sample.

(** ** A sample run *)

Module SampleRun.
Import Evaluate.

(** Two splits; the loader of a split yields the batch of two scenes. *)
Definition dataset : list (string * nat) := [("train"%string, 3%nat); ("test"%string, 7%nat)].

Definition batches_of (loader : DataLoader nat) : list (FeedDict unit) :=
  [Sample.two_scenes].

(** Collaborators that leave the file system as it is. *)
Definition quiet {A} (a : A) (fs : Os.fsys) : Os.fsys * outcome A := (fs, Returns a).

Definition run (args : Args) (fs : Os.fsys) : Os.fsys * result unit :=
  main Z.gtb [] Py.lower_ascii_text (fun _ _ _ => quiet Sample.configs)
    dataset batches_of 2 0 (Sample.zoo 1) (Sample.zoo 2) (Sample.zoo 3)
    (fun _ _ => quiet ()) (quiet ()) (quiet ()) args fs.

(** A command line with a model name the script does not know. *)
Definition unknown_model : Args :=
  {| config := "configs/default.yaml"; run_dir := None;
     name := Some "PointNet"%string; save_dir := Some "out"%string |}.

(** A command line without [--save-dir]. *)
Definition no_save_dir : Args :=
  {| config := "configs/default.yaml"; run_dir := None;
     name := Some "SemanticKITTI_val_SPVNAS@65GMACs"%string; save_dir := None |}.

(** A scan of sequence 11. *)
Definition sequence_11 : FeedDict unit :=
  {| lidar := Torch.Sparse [Sample.at_scene 0] [tt];
     targets := Torch.Sparse [Sample.at_scene 0] [0];
     targets_mapped := Torch.Sparse [Sample.at_scene 0] [0];
     inverse_map := Torch.Sparse [Sample.at_scene 0] [0];
     file_name := ["/data/sequences/11/velodyne/000000.bin"%string] |}.


(** A file system with a regular file where the directory of sequence
    08 would be. *)
Definition file_at_08 : Os.fsys :=
  <[["out"; "08"]%string := Os.File []]> (<[["out"]%string := Os.Dir]> ∅).

(** A file system with a regular file where the save directory would
    be. *)
Definition file_at_out : Os.fsys := <[["out"]%string := Os.File []]> ∅.

(** A batch of two scenes as the collate function builds it: the points
    of scene 0 before the points of scene 1. *)
Definition collated : FeedDict unit :=
  {| lidar := Torch.Sparse [Sample.at_scene 0; Sample.at_scene 0; Sample.at_scene 1] [tt; tt; tt];
     targets := Torch.Sparse [Sample.at_scene 0; Sample.at_scene 0; Sample.at_scene 1] [4; 6; 5];
     targets_mapped :=
       Torch.Sparse [Sample.at_scene 0; Sample.at_scene 0; Sample.at_scene 0; Sample.at_scene 1]
                    [7; 8; 7; 9];
     inverse_map :=
       Torch.Sparse [Sample.at_scene 0; Sample.at_scene 0; Sample.at_scene 0; Sample.at_scene 1]
                    [1; 0; 1; 0];
     file_name := ["/data/sequences/08/velodyne/000123.bin"%string] |}.

End SampleRun.

(** * Properties *)

(** ** The models of the libraries on some inputs *)

Example split_ex : Py.split "/" "/data/sequences/08/velodyne/000123.bin"
  = [""; "data"; "sequences"; "08"; "velodyne"; "000123.bin"]%string.
Proof. reflexivity. Qed.
Example replace_ex : Py.replace ".bin" ".label" "a.bin.bin" = "a.label.label"%string.
Proof. reflexivity. Qed.
Example replace_ex2 : Py.replace "" "-" "abc" = "-a-b-c-"%string.
Proof. reflexivity. Qed.
Example replace_ex3 : Py.replace "" "-" "" = "-"%string.
Proof. vm_compute. reflexivity. Qed.
Example fmt_ex : Py.format_02d <$> [0; 7; 10; 123; -3] = ["00"; "07"; "10"; "123"; "-3"]%string.
Proof. reflexivity. Qed.
Example lower_ex : Py.lower_ascii_text "SPVNAS@65GMACs[]" = "spvnas@65gmacs[]"%string.
Proof. reflexivity. Qed.
Example resolve_ex : Os.resolve "/out//./pred/00" = [""; "out"; "pred"; "00"]%string.
Proof. reflexivity. Qed.
Example resolve_ex2 : Os.resolve "./out/00/" = ["out"; "00"]%string.
Proof. reflexivity. Qed.
Example makedirs_ex :
  Os.makedirs "out/00" ∅ = Ok (<[["out"; "00"]%string := Os.Dir]> (<[["out"]%string := Os.Dir]> ∅)).
Proof. reflexivity. Qed.
Example argmax_ex : Torch.argmax_row Z.gtb [3; 7; 7; 1] = Ok 1.
Proof. reflexivity. Qed.

(** ** The exception monad *)

Lemma bind_Ok {A B} (f : A -> result B) (m : result A) (b : B) :
  m ≫= f = Ok b <-> exists a, m = Ok a /\ f a = Ok b.
Proof.
  destruct m as [a|o e]; simpl; split.
  - intros H. exists a. auto.
  - intros (a' & [= <-] & H). exact H.
  - discriminate.
  - intros (a' & [=] & _).
Qed.

Lemma bind_Err {A B} (f : A -> result B) (m : result A) o e :
  m ≫= f = Err o e <-> m = Err o e \/ exists a, m = Ok a /\ f a = Err o e.
Proof.
  destruct m as [a|o' e']; simpl; split.
  - intros H. right. exists a. auto.
  - intros [[=]|(a' & [= <-] & H)]. exact H.
  - intros [= -> ->]. left. reflexivity.
  - intros [[= -> ->]|(a' & [=] & _)]. reflexivity.
Qed.

(** Split a successful run of a block into the successful runs of its
    statements. *)
Ltac inv_bind H :=
  repeat match type of H with
  | _ ≫= _ = Ok _ =>
      let a := fresh "a" in
      let Ha := fresh "H" a in
      apply bind_Ok in H as (a & Ha & H)
  | Ok _ = Ok _ => injection H as H
  end.

Lemma from_library_Ok {A} (a : A) : from_library (Ok a).
Proof. intros e. discriminate. Qed.

Lemma from_library_throw {A} (e : exn) : from_library (throw (A := A) e).
Proof. intros e'. discriminate. Qed.

Lemma from_library_Err {A B} o e :
  from_library (Err (A := A) o e) -> from_library (Err (A := B) o e).
Proof. intros H e' Heq. injection Heq as -> ->. exact (H e' eq_refl). Qed.

Lemma from_library_bind {A B} (m : result A) (f : A -> result B) :
  from_library m -> (forall a, from_library (f a)) -> from_library (m ≫= f).
Proof.
  intros Hm Hf e. destruct m as [a|o e']; simpl.
  - apply Hf.
  - intros [= -> ->]. exact (Hm e eq_refl).
Qed.

Lemma from_library_of_option {A} e (o : option A) : from_library (of_option e o).
Proof. destruct o; [apply from_library_Ok | apply from_library_throw]. Qed.

Lemma from_library_mapM {A B} (f : A -> result B) (l : list A) :
  (forall a, from_library (f a)) -> from_library (mapM (M := result) f l).
Proof.
  intros Hf. induction l as [|a l IH]; simpl.
  - apply from_library_Ok.
  - apply from_library_bind; [apply Hf|]. intros b.
    apply from_library_bind; [exact IH|]. intros bs. apply from_library_Ok.
Qed.

Create HintDb lib discriminated.
#[global] Hint Resolve from_library_Ok from_library_throw from_library_of_option
  from_library_mapM : lib.
#[global] Hint Extern 2 (from_library (_ ≫= _)) =>
  apply from_library_bind; [|intros ?] : lib.

Lemma from_library_index {A} (xs : list A) i : from_library (Py.index xs i).
Proof. unfold Py.index. repeat case_bool_decide; auto with lib. Qed.

Lemma from_library_mask_index {A} (t : list A) mask : from_library (Torch.mask_index t mask).
Proof. unfold Torch.mask_index. case_bool_decide; auto with lib. Qed.

Lemma from_library_max t : from_library (Torch.max t).
Proof. destruct t; simpl; auto with lib. Qed.

Lemma from_library_cat {A} (ts : list (list A)) : from_library (Torch.cat ts).
Proof. destruct ts; simpl; auto with lib. Qed.

Lemma from_library_gather {A} (t : list A) idx : from_library (Torch.gather t idx).
Proof. apply from_library_mapM. intros i. apply from_library_index. Qed.

Lemma from_library_argmax1 {score} (gtb : score -> score -> bool) t :
  from_library (Torch.argmax1 gtb t).
Proof. apply from_library_mapM. intros [|x row]; simpl; auto with lib. Qed.

Lemma from_library_makedirs p fs : from_library (Os.makedirs p fs).
Proof.
  unfold Os.makedirs. repeat case_bool_decide; auto with lib.
  destruct (existsb _ _); auto with lib.
Qed.

Lemma from_library_write_file p bs fs : from_library (Os.write_file p bs fs).
Proof.
  unfold Os.write_file. case_bool_decide; auto with lib.
  destruct (Os.node_at fs (removelast _)) as [[|c]|]; auto with lib.
  destruct (Os.node_at fs _) as [[|c]|]; auto with lib.
Qed.

#[global] Hint Resolve from_library_index from_library_mask_index from_library_max
  from_library_cat from_library_gather from_library_argmax1 from_library_makedirs
  from_library_write_file : lib.

(** ** Strings *)

Lemma app_String c (s t : string) : String c s +:+ t = String c (s +:+ t).
Proof. reflexivity. Qed.

Lemma app_Empty (t : string) : EmptyString +:+ t = t.
Proof. reflexivity. Qed.

Lemma prefix_app (sub s : string) :
  String.prefix sub s = true <-> exists b, s = sub +:+ b.
Proof.
  revert s. induction sub as [|c sub IH]; intros s.
  - split; [intros _; exists s; reflexivity | intros _; destruct s; reflexivity].
  - destruct s as [|d s]; simpl.
    + split; [discriminate | intros (b & [=])].
    + destruct (Ascii.ascii_dec c d) as [->|Hcd].
      * rewrite IH. split; intros (b & Hb); exists b.
        -- rewrite app_String. f_equal. exact Hb.
        -- rewrite app_String in Hb. injection Hb as Hb. exact Hb.
      * split; [discriminate|]. intros (b & Hb). rewrite app_String in Hb.
        injection Hb as Hc _. congruence.
Qed.

(** [sub in s] holds exactly when [s] is some text, then [sub], then some
    more text. *)
Lemma contains_spec (sub s : string) :
  Py.contains sub s = true <-> exists a b, s = a +:+ sub +:+ b.
Proof.
  induction s as [|c s IH]; cbn [Py.contains].
  - rewrite orb_false_r, prefix_app. split.
    + intros (b & Hb). exists EmptyString, b. exact Hb.
    + intros ([|d a] & b & Hb); [exists b; exact Hb | discriminate].
  - rewrite orb_true_iff, IH, prefix_app. split.
    + intros [(b & Hb)|(a & b & Hab)].
      * exists EmptyString, b. exact Hb.
      * exists (String c a), b. rewrite app_String. congruence.
    + intros ([|d a] & b & Hab).
      * left. exists b. exact Hab.
      * right. rewrite app_String in Hab. injection Hab as _ Hab.
        exists a, b. exact Hab.
Qed.

(** ** The model selection and the errors of the script *)

Import Evaluate.

Lemma from_library_opt_add a b : from_library (opt_add a b).
Proof. destruct a; simpl; auto with lib. Qed.
#[global] Hint Resolve from_library_opt_add : lib.

Lemma from_library_setup_loop sd idxs fs : from_library (setup_loop sd idxs fs).2.
Proof.
  revert fs. induction idxs as [|i idxs IH]; intros fs; simpl.
  - auto with lib.
  - pose proof (from_library_opt_add sd "/") as Hsd.
    destruct (opt_add sd "/") as [p|o e]; [|exact (from_library_Err _ _ Hsd)].
    destruct (negb _); [|apply IH].
    pose proof (from_library_makedirs (p +:+ directory_name i) fs) as Hmk.
    destruct (Os.makedirs _ fs) as [fs'|o e]; [apply IH | exact (from_library_Err _ _ Hmk)].
Qed.

Section Errors.
Context {feat score Dataset : Type} (gtb : score -> score -> bool).
Context (opts : list string) (lower : string -> string).
Context (start_up : string -> list string -> option string -> Os.fsys
                    -> Os.fsys * outcome Configs).
Context (dataset : list (string * Dataset)).
Context (batches_of : DataLoader Dataset -> list (FeedDict feat)).
Context (dist_size dist_rank : Z).
Context (spvnas_specialized spvcnn minkunet
           : string -> Torch.SparseTensor feat -> list (list score)).
Context (make_trainer : Configs -> (Torch.SparseTensor feat -> list (list score)) -> Os.fsys
                        -> Os.fsys * outcome unit).
Context (before_epoch after_epoch : Os.fsys -> Os.fsys * outcome unit).

Lemma from_library_scene_loop inputs invs all_labels (outputs : list (list score)) idxs acc :
  from_library (scene_loop (feat := feat) gtb inputs invs all_labels outputs idxs acc).
Proof.
  revert acc. induction idxs as [|i idxs IH]; intros acc; simpl; [auto with lib|].
  apply from_library_bind; [|intros m; apply IH].
  unfold scene_step. auto 10 with lib.
Qed.

Lemma from_library_eval_step sd (fd : FeedDict feat) outputs fs :
  from_library (eval_step gtb sd fd outputs fs).
Proof.
  pose proof from_library_scene_loop.
  unfold eval_step, map_outputs, output_file_name. auto 12 with lib.
Qed.

Lemma from_library_eval_loop sd model (batches : list (FeedDict feat)) fs :
  from_library (eval_loop gtb sd model batches fs).2.
Proof.
  revert fs. induction batches as [|fd batches IH]; intros fs; simpl.
  - auto with lib.
  - pose proof (from_library_eval_step sd fd (model (lidar fd)) fs) as Hstep.
    destruct (eval_step _ _ _ _ _) as [fs'|o e];
      [apply IH | exact (from_library_Err _ _ Hstep)].
Qed.

Let select := select_model lower spvnas_specialized spvcnn minkunet.
Let run := main gtb opts lower start_up dataset batches_of dist_size dist_rank
             spvnas_specialized spvcnn minkunet make_trainer before_epoch after_epoch.

(** The three substrings are tried in the order of the script. *)
Lemma select_model_cases args n :
  name args = Some n ->
  select args =
    if Py.contains "spvnas" (lower n) then Ok (spvnas_specialized n)
    else if Py.contains "spvcnn" (lower n) then Ok (spvcnn n)
    else if Py.contains "mink" (lower n) then Ok (minkunet n)
    else Err Script NotImplementedError.
Proof. intros Hn. unfold select, select_model. rewrite Hn. reflexivity. Qed.

(** The only exception of a run that a [raise] of the script produces. *)
Lemma main_raise args fs fs' e :
  run args fs = (fs', Err Script e) ->
  e = NotImplementedError /\ select args = Err Script NotImplementedError.
Proof.
  intros H. unfold run, main, setup_dirs in H.
  pose proof (from_library_setup_loop (save_dir args) (Py.range 11) fs) as Hsetup.
  destruct (setup_loop _ _ fs) as [fs1 [[]|o1 e1]]; simpl in Hsetup.
  2:{ injection H as _ -> ->. destruct (Hsetup e eq_refl). }
  destruct (start_up _ _ _ fs1) as [fs2 [configs|e2]]; [|discriminate H].
  fold select in H.
  destruct (select args) as [model|o3 e3] eqn:Hsel.
  2:{ injection H as _ -> ->. unfold select, select_model in Hsel.
      destruct (name args); [|discriminate].
      repeat match type of Hsel with
             | (if ?b then _ else _) = _ => destruct b; [discriminate|]
             end.
      split; congruence. }
  destruct (make_trainer configs model fs2) as [fs3 [[]|e4]]; [|discriminate H].
  destruct (_ !! _) as [loader|]; [|discriminate H].
  destruct (before_epoch fs3) as [fs4 [[]|e5]]; [|discriminate H].
  pose proof (from_library_eval_loop (save_dir args) model (batches_of loader) fs4) as Hl.
  destruct (eval_loop _ _ _ _ fs4) as [fs5 [[]|o6 e6]]; simpl in Hl.
  2:{ injection H as _ -> ->. destruct (Hl e eq_refl). }
  destruct (after_epoch fs5) as [fs6 [[]|e7]]; discriminate H.
Qed.

(** C5.  The selection of the model raises [NotImplementedError] exactly
    when the lower-cased name, whatever [str.lower] makes of it, contains
    none of [spvnas], [spvcnn] and [mink]; the substrings are tried in
    this order, so that a name with [spvnas] in it selects
    [spvnas_specialized] whatever else it contains; and no other
    exception of a run of [main] comes from a [raise] of the script. *)
Theorem select_model_not_implemented (args : Args) :
  (select args = Err Script NotImplementedError <->
     exists n, name args = Some n /\
       Py.contains "spvnas" (lower n) = false /\
       Py.contains "spvcnn" (lower n) = false /\
       Py.contains "mink" (lower n) = false) /\
  (forall n, name args = Some n ->
     Py.contains "spvnas" (lower n) = true ->
     select args = Ok (spvnas_specialized n)) /\
  (forall n, name args = Some n ->
     Py.contains "spvnas" (lower n) = false ->
     Py.contains "spvcnn" (lower n) = true ->
     select args = Ok (spvcnn n)) /\
  (forall n, name args = Some n ->
     Py.contains "spvnas" (lower n) = false ->
     Py.contains "spvcnn" (lower n) = false ->
     Py.contains "mink" (lower n) = true ->
     select args = Ok (minkunet n)) /\
  (forall fs fs' e, run args fs = (fs', Err Script e) ->
     e = NotImplementedError /\ select args = Err Script NotImplementedError).
Proof.
  refine (conj (conj _ _) (conj _ (conj _ (conj _ _)))).
  - intros H. unfold select, select_model in H.
    destruct (name args) as [n|] eqn:Hn; [|discriminate].
    exists n. split; [reflexivity|].
    destruct (Py.contains "spvnas" _); [discriminate|].
    destruct (Py.contains "spvcnn" _); [discriminate|].
    destruct (Py.contains "mink" _); [discriminate|]. auto.
  - intros (n & Hn & H1 & H2 & H3).
    rewrite (select_model_cases _ _ Hn), H1, H2, H3. reflexivity.
  - intros n Hn H1. rewrite (select_model_cases _ _ Hn), H1. reflexivity.
  - intros n Hn H1 H2. rewrite (select_model_cases _ _ Hn), H1, H2. reflexivity.
  - intros n Hn H1 H2 H3. rewrite (select_model_cases _ _ Hn), H1, H2, H3. reflexivity.
  - intros fs fs' e H. exact (main_raise args fs fs' e H).
Qed.
End Errors.

Lemma select_model_not_implemented_witness :
  select_model Py.lower_ascii_text (Sample.zoo 1) (Sample.zoo 2) (Sample.zoo 3)
    SampleRun.unknown_model = Err Script NotImplementedError /\
  (SampleRun.run SampleRun.unknown_model ∅).2 = Err Script NotImplementedError /\
  select_model Py.lower_ascii_text (Sample.zoo 1) (Sample.zoo 2) (Sample.zoo 3) Sample.args
    = Ok (Sample.zoo 1 "SemanticKITTI_val_SPVNAS@65GMACs").
Proof.
  assert (Hraise : select_model Py.lower_ascii_text (Sample.zoo 1) (Sample.zoo 2) (Sample.zoo 3)
                     SampleRun.unknown_model = Err Script NotImplementedError).
  { apply (proj2 (proj1 (select_model_not_implemented Z.gtb [] Py.lower_ascii_text
             (fun _ _ _ => SampleRun.quiet Sample.configs) SampleRun.dataset
             SampleRun.batches_of 2 0 (Sample.zoo 1) (Sample.zoo 2) (Sample.zoo 3)
             (fun _ _ => SampleRun.quiet ()) (SampleRun.quiet ()) (SampleRun.quiet ())
             SampleRun.unknown_model))).
    exists "PointNet"%string. repeat split; reflexivity. }
  split; [exact Hraise|]. split; [reflexivity|].
  exact (proj1 (proj2 (select_model_not_implemented Z.gtb [] Py.lower_ascii_text
           (fun _ _ _ => SampleRun.quiet Sample.configs) SampleRun.dataset
           SampleRun.batches_of 2 0 (Sample.zoo 1) (Sample.zoo 2) (Sample.zoo 3)
           (fun _ _ => SampleRun.quiet ()) (SampleRun.quiet ()) (SampleRun.quiet ())
           Sample.args))
           _ eq_refl eq_refl).
Defined.

(** ** The data loaders *)

Section Loaders.
Context {Dataset : Type} (dist_size dist_rank : Z) (configs : Configs).

Let loader := make_loader (Dataset := Dataset) dist_size dist_rank configs.
Let loop := dataflow_loop (Dataset := Dataset) dist_size dist_rank configs.

(** What the loop leaves in [dataflow] under a key: the loader made for
    a split of that name, or what was there before. *)
Lemma dataflow_loop_lookup dataset dataflow split dl :
  loop dataset dataflow !! split = Some dl ->
  (exists ds, (split, ds) ∈ dataset /\ dl = loader split ds) \/
  dataflow !! split = Some dl.
Proof.
  revert dataflow. induction dataset as [|[s ds] dataset IH]; intros dataflow H.
  - right. exact H.
  - simpl in H. apply IH in H as [(ds' & Hin & Hdl)|H].
    + left. exists ds'. split; [right; exact Hin | exact Hdl].
    + destruct (decide (s = split)) as [->|Hne].
      * rewrite lookup_insert_eq in H. injection H as <-.
        left. exists ds. split; [left | reflexivity].
      * rewrite lookup_insert_ne in H by exact Hne. right. exact H.
Qed.

(** Every split of the data set gets a loader. *)
Lemma dataflow_loop_total dataset dataflow split ds :
  (split, ds) ∈ dataset -> is_Some (loop dataset dataflow !! split).
Proof.
  assert (Hkeep : forall dataset dataflow,
             is_Some (dataflow !! split) -> is_Some (loop dataset dataflow !! split)).
  { clear. intros dataset. induction dataset as [|[s d] dataset IH]; intros dataflow H.
    - exact H.
    - simpl. apply IH. destruct (decide (s = split)) as [->|Hne].
      + rewrite lookup_insert_eq. eauto.
      + rewrite lookup_insert_ne by exact Hne. exact H. }
  revert dataflow. induction dataset as [|[s d] dataset IH]; intros dataflow Hin.
  - inversion Hin.
  - simpl. apply elem_of_cons in Hin as [[= <- <-]|Hin].
    + apply Hkeep. rewrite lookup_insert_eq. eauto.
    + apply IH. exact Hin.
Qed.

Lemma output_file_name_first {feat} sd (fd fd' : FeedDict feat) :
  head (file_name fd) = head (file_name fd') ->
  output_file_name sd fd = output_file_name sd fd'.
Proof.
  intros H. unfold output_file_name.
  assert (Py.index (file_name fd) 0 = Py.index (file_name fd') 0) as ->; [|reflexivity].
  unfold Py.index.
  destruct (file_name fd) as [|x xs], (file_name fd') as [|y ys];
    simpl in H; try discriminate.
  - reflexivity.
  - injection H as ->. rewrite !bool_decide_true by (simpl length; lia). reflexivity.
Qed.

(** C10.  The loader of every split other than [train], the [test] split
    of the evaluation among them, has batch size 1 and a sampler that
    does not shuffle; the loader of [train] has the configured batch
    size and a shuffling sampler; and the name of the output file of an
    evaluation step is the same for two batches with the same first file
    name. *)
Theorem dataflow_batch_size dataset split (dl : DataLoader Dataset) :
  make_dataflow dist_size dist_rank configs dataset !! split = Some dl ->
  (split <> "train"%string ->
     loader_batch_size dl = 1 /\ shuffle (sampler dl) = false) /\
  (split = "train"%string ->
     loader_batch_size dl = batch_size configs /\ shuffle (sampler dl) = true) /\
  (forall feat sd (fd fd' : FeedDict feat),
     head (file_name fd) = head (file_name fd') ->
     output_file_name sd fd = output_file_name sd fd').
Proof.
  intros H. apply dataflow_loop_lookup in H as [(ds & _ & ->)|H].
  2:{ rewrite lookup_empty in H. discriminate. }
  refine (conj _ (conj _ _)).
  - intros Hne. simpl. rewrite !bool_decide_false by exact Hne. auto.
  - intros ->. simpl. auto.
  - intros feat sd fd fd'. apply output_file_name_first.
Qed.
End Loaders.

Lemma dataflow_batch_size_witness :
  loader_batch_size (make_loader 2 0 Sample.configs "test" 7%nat) = 1 /\
  shuffle (sampler (make_loader 2 0 Sample.configs "test" 7%nat)) = false.
Proof.
  refine (proj1 (dataflow_batch_size 2 0 Sample.configs
            [("train"%string, 3%nat); ("test"%string, 7%nat)] "test"
            (make_loader 2 0 Sample.configs "test" 7%nat) _) _).
  - reflexivity.
  - discriminate.
Defined.

(** ** The file system *)

Section FileSystem.
Import Os.
Implicit Types (fs : fsys) (q r : list string) (p : string).

Lemma node_at_insert fs q n r :
  node_at fs q = None ->
  node_at (<[q := n]> fs) r = if decide (r = q) then Some n else node_at fs r.
Proof.
  unfold node_at. intros Hq.
  destruct (bool_decide (q = [] \/ q = [""%string])) eqn:Himp; [discriminate|].
  destruct (decide (r = q)) as [->|Hne].
  - rewrite Himp. apply lookup_insert_eq.
  - destruct (bool_decide (r = [] \/ r = [""%string])); [reflexivity|].
    apply lookup_insert_ne. congruence.
Qed.

Lemma node_at_mkdir_missing fs q r :
  node_at (mkdir_missing fs q) r =
    match node_at fs r with
    | Some n => Some n
    | None => if decide (r = q) then Some Dir else None
    end.
Proof.
  unfold mkdir_missing. destruct (node_at fs q) as [n|] eqn:Hq.
  - destruct (node_at fs r) as [m|] eqn:Hr; [reflexivity|].
    destruct (decide (r = q)) as [->|]; [congruence | reflexivity].
  - rewrite node_at_insert by exact Hq.
    destruct (decide (r = q)) as [->|]; [rewrite Hq; reflexivity|].
    destruct (node_at fs r); reflexivity.
Qed.

(** After the missing directories of [qs] are made, a path holds what it
    held before, and a directory if it held nothing and is in [qs]. *)
Lemma node_at_foldl_mkdir qs fs r :
  node_at (foldl mkdir_missing fs qs) r =
    match node_at fs r with
    | Some n => Some n
    | None => if decide (r ∈ qs) then Some Dir else None
    end.
Proof.
  revert fs. induction qs as [|q qs IH]; intros fs; simpl.
  - destruct (node_at fs r); [reflexivity|].
    destruct (decide (r ∈ [])) as [H|]; [inversion H | reflexivity].
  - rewrite IH, node_at_mkdir_missing.
    destruct (node_at fs r) as [n|]; [reflexivity|].
    destruct (decide (r = q)) as [->|Hne].
    + rewrite decide_True by left. reflexivity.
    + destruct (decide (r ∈ qs)) as [Hin|Hnin].
      * rewrite decide_True by (right; exact Hin). reflexivity.
      * rewrite decide_False; [reflexivity|].
        intros [->|Hin]%elem_of_cons; contradiction.
Qed.

Lemma elem_of_prefixes q r :
  r ∈ prefixes q <-> r `prefix_of` q /\ r <> [].
Proof.
  unfold prefixes. rewrite list_elem_of_fmap. split.
  - intros (n & -> & Hn). apply elem_of_seq in Hn. split.
    + apply prefix_take.
    + intros H. apply (f_equal length) in H. rewrite length_take in H.
      simpl in H. lia.
  - intros ([k ->] & Hne). exists (length r). split.
    + rewrite take_app_length. reflexivity.
    + apply elem_of_seq. rewrite length_app.
      destruct r; [contradiction | simpl; lia].
Qed.

Lemma path_exists_node p fs :
  path_exists p fs = true <-> p <> EmptyString /\ is_Some (node_at fs (resolve p)).
Proof.
  unfold path_exists. rewrite andb_true_iff, negb_true_iff.
  rewrite bool_decide_eq_false, bool_decide_eq_true. reflexivity.
Qed.

(** What [os.makedirs] does when it returns. *)
Lemma makedirs_Ok p fs fs' :
  makedirs p fs = Ok fs' ->
  p <> EmptyString /\ node_at fs (resolve p) = None /\
  forall r, node_at fs' r =
    match node_at fs r with
    | Some n => Some n
    | None => if decide (r ∈ prefixes (resolve p)) then Some Dir else None
    end.
Proof.
  unfold makedirs. intros H.
  case_bool_decide as Hp; [discriminate|].
  case_bool_decide as Hq; [discriminate|].
  destruct (existsb _ _); [discriminate|]. injection H as <-.
  split; [exact Hp|]. split.
  - destruct (node_at fs (resolve p)) eqn:E; [|reflexivity].
    exfalso. apply Hq. eauto.
  - intros r. apply node_at_foldl_mkdir.
Qed.

Lemma makedirs_exists p fs fs' :
  makedirs p fs = Ok fs' -> path_exists p fs' = true.
Proof.
  intros (Hp & Hq & Hfs')%makedirs_Ok. apply path_exists_node. split; [exact Hp|].
  rewrite Hfs', Hq. rewrite decide_True; [eauto|].
  apply elem_of_prefixes. split; [reflexivity|].
  intros Hnil. rewrite Hnil in Hq. discriminate.
Qed.

Lemma makedirs_mono p fs fs' r n :
  makedirs p fs = Ok fs' -> node_at fs r = Some n -> node_at fs' r = Some n.
Proof. intros (_ & _ & Hfs')%makedirs_Ok Hr. rewrite Hfs', Hr. reflexivity. Qed.
End FileSystem.

(** ** The set-up of the output directories *)

Section Setup.
Import Os.
Implicit Types (fs : fsys) (r : list string) (sd : option string).

Lemma setup_loop_cons sd i idxs fs :
  setup_loop sd (i :: idxs) fs =
    match sd with
    | None => (fs, throw TypeError)
    | Some s =>
        if path_exists (dir_path s i) fs then setup_loop sd idxs fs
        else match makedirs (dir_path s i) fs with
             | Ok fs' => setup_loop sd idxs fs'
             | Err o e => (fs, Err o e)
             end
    end.
Proof.
  destruct sd as [s|]; simpl; [|reflexivity].
  fold (dir_path s i). destruct (path_exists _ fs); reflexivity.
Qed.

(** The loop removes nothing and overwrites nothing. *)
Lemma setup_loop_mono sd idxs fs r n :
  node_at fs r = Some n -> node_at (setup_loop sd idxs fs).1 r = Some n.
Proof.
  revert fs. induction idxs as [|i idxs IH]; intros fs Hr; [exact Hr|].
  rewrite setup_loop_cons. destruct sd as [s|]; [|exact Hr].
  destruct (path_exists _ fs); [apply IH; exact Hr|].
  destruct (makedirs _ fs) as [fs'|o e] eqn:Hmk; [|exact Hr].
  apply IH. eapply makedirs_mono; eassumption.
Qed.

Lemma setup_loop_exists sd idxs fs p :
  path_exists p fs = true -> path_exists p (setup_loop sd idxs fs).1 = true.
Proof.
  rewrite !path_exists_node. intros [Hp [n Hn]]. split; [exact Hp|].
  exists n. apply setup_loop_mono. exact Hn.
Qed.

(** Running the loop again from the state it left changes nothing and
    ends the same way. *)
Lemma setup_loop_idempotent sd idxs fs :
  setup_loop sd idxs (setup_loop sd idxs fs).1 = setup_loop sd idxs fs.
Proof.
  revert fs. induction idxs as [|i idxs IH]; intros fs; [reflexivity|].
  rewrite (setup_loop_cons sd i idxs fs). destruct sd as [s|]; [|reflexivity].
  destruct (path_exists (dir_path s i) fs) eqn:Hex.
  - rewrite setup_loop_cons, setup_loop_exists by exact Hex. apply IH.
  - destruct (makedirs (dir_path s i) fs) as [fs'|o e] eqn:Hmk.
    + rewrite setup_loop_cons, setup_loop_exists by (eapply makedirs_exists; eassumption).
      apply IH.
    + cbn [fst]. rewrite setup_loop_cons, Hex, Hmk. reflexivity.
Qed.

(** When every directory is there, the loop calls [os.makedirs] for
    none and leaves the file system as it is. *)
Lemma setup_loop_present s idxs fs :
  (forall i, i ∈ idxs -> path_exists (dir_path s i) fs = true) ->
  setup_loop (Some s) idxs fs = (fs, Ok ()).
Proof.
  induction idxs as [|i idxs IH]; intros Hall; [reflexivity|].
  rewrite setup_loop_cons, Hall by left. apply IH.
  intros j Hj. apply Hall. right. exact Hj.
Qed.

(** When the loop ends well, every directory is there. *)
Lemma setup_loop_all sd idxs fs fs' i :
  setup_loop sd idxs fs = (fs', Ok ()) -> i ∈ idxs ->
  exists s, sd = Some s /\ path_exists (dir_path s i) fs' = true.
Proof.
  revert fs. induction idxs as [|j idxs IH]; intros fs Hrun Hin; [inversion Hin|].
  rewrite setup_loop_cons in Hrun. destruct sd as [s|]; [|discriminate].
  exists s. split; [reflexivity|].
  apply elem_of_cons in Hin as [->|Hin].
  - replace fs' with (setup_loop (Some s) idxs
                        (if path_exists (dir_path s j) fs then fs
                         else match makedirs (dir_path s j) fs with
                              | Ok fs1 => fs1 | Err _ _ => fs end)).1.
    + apply setup_loop_exists. destruct (path_exists _ fs) eqn:Hex; [exact Hex|].
      destruct (makedirs _ fs) eqn:Hmk; [|discriminate].
      eapply makedirs_exists; eassumption.
    + destruct (path_exists _ fs); [rewrite Hrun; reflexivity|].
      destruct (makedirs _ fs); [rewrite Hrun; reflexivity | discriminate].
  - destruct (path_exists _ fs).
    + destruct (IH _ Hrun Hin) as (s' & [= <-] & H). exact H.
    + destruct (makedirs _ fs); [|discriminate].
      destruct (IH _ Hrun Hin) as (s' & [= <-] & H). exact H.
Qed.

(** What the loop changes: a path that held nothing and is one of the
    directories of the loop, or a directory above one, holds a directory
    afterwards. *)
Lemma setup_loop_frame sd idxs fs r :
  node_at (setup_loop sd idxs fs).1 r <> node_at fs r ->
  node_at fs r = None /\ node_at (setup_loop sd idxs fs).1 r = Some Dir /\
  exists s i, sd = Some s /\ i ∈ idxs /\ r ∈ prefixes (resolve (dir_path s i)).
Proof.
  revert fs. induction idxs as [|i idxs IH]; intros fs; [intros []; reflexivity|].
  rewrite setup_loop_cons. destruct sd as [s|]; [|intros []; reflexivity].
  assert (Hrest : forall fs1,
    node_at (setup_loop (Some s) idxs fs1).1 r <> node_at fs1 r ->
    node_at fs1 r = None /\ node_at (setup_loop (Some s) idxs fs1).1 r = Some Dir /\
    exists s0 i0, Some s = Some s0 /\ i0 ∈ i :: idxs /\
                  r ∈ prefixes (resolve (dir_path s0 i0))).
  { intros fs1 H. destruct (IH fs1 H) as (H1 & H2 & s0 & i0 & Hs & Hi & Hr).
    split; [exact H1|]. split; [exact H2|].
    exists s0, i0. split; [exact Hs|]. split; [right; exact Hi | exact Hr]. }
  destruct (path_exists _ fs); [apply Hrest|].
  destruct (makedirs _ fs) as [fs'|o e] eqn:Hmk; [|intros []; reflexivity].
  intros Hne. destruct (makedirs_Ok _ _ _ Hmk) as (_ & _ & Hfs').
  destruct (node_at fs r) as [n|] eqn:Hr.
  { exfalso. apply Hne. apply setup_loop_mono. rewrite Hfs', Hr. reflexivity. }
  split; [reflexivity|].
  destruct (decide (node_at (setup_loop (Some s) idxs fs').1 r = node_at fs' r)) as [Heq|Hne'].
  - rewrite Heq in Hne |- *. rewrite Hfs', Hr in Hne |- *.
    destruct (decide (r ∈ prefixes (resolve (dir_path s i)))) as [Hin|]; [|contradiction].
    split; [reflexivity|]. exists s, i. split; [reflexivity|]. split; [left | exact Hin].
  - destruct (Hrest fs' Hne') as (_ & H2 & H3). split; [exact H2 | exact H3].
Qed.
End Setup.

(** ** Paths *)

Lemma string_app_assoc (a b c : string) : (a +:+ b) +:+ c = a +:+ (b +:+ c).
Proof.
  induction a as [|x a IH]; [reflexivity|].
  rewrite !app_String, IH. reflexivity.
Qed.

Lemma split_nonempty sep s : Py.split sep s <> [].
Proof.
  destruct s as [|c s]; simpl; [discriminate|].
  case_bool_decide; [discriminate|]. destruct (Py.split sep s); discriminate.
Qed.

(** Splitting at a separator splits the text on each side of it. *)
Lemma split_app sep (a b : string) :
  Py.split sep (a +:+ String sep b) = Py.split sep a ++ Py.split sep b.
Proof.
  induction a as [|x a IH].
  - rewrite app_Empty. simpl. rewrite bool_decide_true by reflexivity. reflexivity.
  - rewrite app_String. simpl. rewrite IH.
    case_bool_decide; [reflexivity|].
    pose proof (split_nonempty sep a).
    destruct (Py.split sep a); [contradiction | reflexivity].
Qed.

Lemma resolve_entry (s c : string) :
  Os.entry_name c -> Os.resolve ((s +:+ "/") +:+ c) = Os.resolve s ++ [c].
Proof.
  intros (Hsplit & Hne & Hdot & _).
  rewrite string_app_assoc. change ("/" +:+ c) with (String "/" c).
  unfold Os.resolve. rewrite split_app, Hsplit.
  pose proof (split_nonempty "/" s).
  destruct (Py.split "/" s) as [|h t]; [contradiction|].
  change ((h :: t) ++ [c]) with (h :: (t ++ [c])). cbv beta iota.
  rewrite List.filter_app. simpl List.filter. unfold Os.proper_component at 2.
  rewrite (bool_decide_eq_false_2 _ Hne), (bool_decide_eq_false_2 _ Hdot).
  simpl. rewrite <- app_assoc. reflexivity.
Qed.

Lemma sequence_names_range : directory_name <$> Py.range 11 = sequence_names.
Proof. reflexivity. Qed.

Lemma sequence_names_entry c : c ∈ sequence_names -> Os.entry_name c.
Proof.
  unfold sequence_names. rewrite !elem_of_cons, elem_of_nil.
  intros H. repeat destruct H as [->|H]; try contradiction;
    (split; [reflexivity | repeat split; discriminate]).
Qed.

Lemma dir_path_name s c :
  c ∈ sequence_names -> exists i, i ∈ Py.range 11 /\ dir_path s i = (s +:+ "/") +:+ c.
Proof.
  rewrite <- sequence_names_range. intros (i & -> & Hi)%list_elem_of_fmap.
  exists i. split; [exact Hi | reflexivity].
Qed.

(** The directory of an entry name other than the eleven is as it was
    before the set-up. *)
Lemma setup_dirs_eleven_frame (args : Args) (fs : Os.fsys) (s : string) :
  save_dir args = Some s ->
  (setup_dirs args fs).2 = Ok () ->
  forall c, Os.entry_name c -> c ∉ sequence_names ->
    Os.node_at (setup_dirs args fs).1 (Os.resolve s ++ [c])
    = Os.node_at fs (Os.resolve s ++ [c]).
Proof.
  intros Hsd _ c Hc Hnot. unfold setup_dirs. rewrite Hsd.
  destruct (decide (Os.node_at (setup_loop (Some s) (Py.range 11) fs).1 (Os.resolve s ++ [c])
                    = Os.node_at fs (Os.resolve s ++ [c]))) as [Heq|Hdiff]; [exact Heq|].
  exfalso. apply setup_loop_frame in Hdiff as (_ & _ & s0 & i & [= <-] & Hi & Hpre).
  assert (Hin : directory_name i ∈ sequence_names).
  { rewrite <- sequence_names_range. apply list_elem_of_fmap. eauto. }
  apply elem_of_prefixes in Hpre as [Hpre _]. unfold dir_path in Hpre.
  rewrite resolve_entry in Hpre by (apply sequence_names_entry, Hin).
  apply prefix_length_eq in Hpre; [|rewrite !length_app; reflexivity].
  apply app_inj_tail in Hpre as [_ ->]. contradiction.
Qed.

(** C7.  The set-up of the directories is idempotent: run a second time
    from the file system the first run left, with the same [--save-dir],
    it leaves that file system as it is and ends as the first run ended;
    and when the first run ended well the second finds each of the eleven
    directories and calls [os.makedirs] for none. *)
Theorem setup_dirs_idempotent (args : Args) (fs : Os.fsys) :
  setup_dirs args (setup_dirs args fs).1 = setup_dirs args fs /\
  (setup_dirs args (setup_dirs args fs).1).1 = (setup_dirs args fs).1 /\
  length (Py.range 11) = 11%nat /\
  ((setup_dirs args fs).2 = Ok () ->
   forall i, i ∈ Py.range 11 ->
     exists s, save_dir args = Some s /\
       Os.path_exists (dir_path s i) (setup_dirs args fs).1 = true).
Proof.
  set (fs1 := (setup_dirs args fs).1). unfold setup_dirs in *.
  pose proof (setup_loop_idempotent (save_dir args) (Py.range 11) fs) as Hidem.
  fold fs1 in Hidem. split; [exact Hidem|]. split; [rewrite Hidem; reflexivity|].
  split; [reflexivity|].
  intros Hok i Hi. apply (setup_loop_all _ (Py.range 11) fs fs1 i); [|exact Hi].
  subst fs1. destruct (setup_loop _ _ fs) as [fs' r]. simpl in Hok |- *.
  rewrite Hok. reflexivity.
Qed.

Lemma setup_dirs_idempotent_witness :
  (setup_dirs Sample.args (setup_dirs Sample.args ∅).1).1 = (setup_dirs Sample.args ∅).1 /\
  Os.path_exists "out/03" (setup_dirs Sample.args ∅).1 = true.
Proof.
  destruct (setup_dirs_idempotent Sample.args ∅) as (_ & Hsame & _ & Hall).
  split; [exact Hsame|].
  destruct (Hall eq_refl 3) as (s & Hs & Hex).
  - unfold Py.range. simpl. do 3 right; left.
  - injection Hs as <-. exact Hex.
Defined.

(** After a set-up that ends well each of the eleven paths holds a
    directory, or the regular file it held before. *)
Lemma setup_dirs_nodes (args : Args) (fs : Os.fsys) (s : string) :
  save_dir args = Some s ->
  (setup_dirs args fs).2 = Ok () ->
  forall c, c ∈ sequence_names ->
    Os.node_at (setup_dirs args fs).1 (Os.resolve s ++ [c]) = Some Os.Dir \/
    exists content,
      Os.node_at fs (Os.resolve s ++ [c]) = Some (Os.File content) /\
      Os.node_at (setup_dirs args fs).1 (Os.resolve s ++ [c]) = Some (Os.File content).
Proof.
  intros Hsd Hok c Hc.
  assert (Hrun : setup_loop (Some s) (Py.range 11) fs = ((setup_dirs args fs).1, Ok ())).
  { unfold setup_dirs in *. rewrite Hsd in *.
    destruct (setup_loop _ _ fs) as [fs1 r]. simpl in Hok |- *. rewrite Hok. reflexivity. }
  destruct (dir_path_name s c Hc) as (i & Hi & Hp).
  destruct (setup_loop_all _ _ _ _ i Hrun Hi) as (s0 & [= <-] & Hex).
  rewrite Hp in Hex. apply path_exists_node in Hex as [_ [n Hn]].
  rewrite resolve_entry in Hn by (apply sequence_names_entry, Hc).
  destruct (decide (Os.node_at (setup_dirs args fs).1 (Os.resolve s ++ [c])
                    = Os.node_at fs (Os.resolve s ++ [c]))) as [Heq|Hdiff].
  - destruct n as [|content]; [left; exact Hn|].
    right. exists content. split; [rewrite <- Heq|]; exact Hn.
  - left. unfold setup_dirs in Hdiff. rewrite Hsd in Hdiff.
    apply setup_loop_frame in Hdiff as (_ & H & _).
    unfold setup_dirs. rewrite Hsd. exact H.
Qed.

(** C9, amended.  For a [--save-dir] without a component [..]: when
    the set-up ends well, each of the eleven paths [00] to [10] under
    [--save-dir] holds a directory exactly when no regular file was in
    its place before: the script tests [os.path.exists], which a regular
    file passes, and such a file stays where it is.  Whatever the set-up
    created is one of the eleven directories or a directory above them,
    and the directory [--save-dir/c] of any other entry name [c], in
    particular of the sequence of a scan outside [00] to [10], is as it
    was before: the script did not create it. *)
Theorem setup_dirs_eleven (args : Args) (fs : Os.fsys) (s : string) :
  save_dir args = Some s ->
  ".."%string ∉ Os.resolve s ->
  (setup_dirs args fs).2 = Ok () ->
  let fs' := (setup_dirs args fs).1 in
  directory_name <$> Py.range 11 = sequence_names /\
  (forall c, c ∈ sequence_names ->
     (Os.node_at fs' (Os.resolve s ++ [c]) = Some Os.Dir <->
      forall content, Os.node_at fs (Os.resolve s ++ [c]) <> Some (Os.File content)) /\
     (forall content, Os.node_at fs (Os.resolve s ++ [c]) = Some (Os.File content) ->
        Os.node_at fs' (Os.resolve s ++ [c]) = Some (Os.File content))) /\
  (forall r, Os.node_at fs' r <> Os.node_at fs r ->
     Os.node_at fs r = None /\ Os.node_at fs' r = Some Os.Dir /\
     exists c, c ∈ sequence_names /\ r `prefix_of` Os.resolve s ++ [c]) /\
  (forall c, Os.entry_name c -> c ∉ sequence_names ->
     Os.resolve ((s +:+ "/") +:+ c) = Os.resolve s ++ [c] /\
     Os.node_at fs' (Os.resolve s ++ [c]) = Os.node_at fs (Os.resolve s ++ [c])).
Proof.
  intros Hsd _ Hok fs'.
  assert (Hframe : forall r, Os.node_at fs' r <> Os.node_at fs r ->
            Os.node_at fs r = None /\ Os.node_at fs' r = Some Os.Dir /\
            exists c, c ∈ sequence_names /\ r `prefix_of` Os.resolve s ++ [c]).
  { intros r Hne. subst fs'. unfold setup_dirs in Hne |- *. rewrite Hsd in Hne |- *.
    destruct (setup_loop_frame (Some s) (Py.range 11) fs r Hne)
      as (H1 & H2 & s0 & i & [= <-] & Hi & Hr).
    split; [exact H1|]. split; [exact H2|].
    exists (directory_name i).
    assert (Hc : directory_name i ∈ sequence_names).
    { rewrite <- sequence_names_range. apply list_elem_of_fmap. eauto. }
    split; [exact Hc|]. apply elem_of_prefixes in Hr as [Hr _].
    unfold dir_path in Hr. rewrite resolve_entry in Hr by (apply sequence_names_entry, Hc).
    exact Hr. }
  split; [reflexivity|]. split; [|split; [exact Hframe|]].
  - intros c Hc.
    assert (Hfile : forall content,
              Os.node_at fs (Os.resolve s ++ [c]) = Some (Os.File content) ->
              Os.node_at fs' (Os.resolve s ++ [c]) = Some (Os.File content)).
    { intros content Hfs.
      destruct (decide (Os.node_at fs' (Os.resolve s ++ [c])
                        = Os.node_at fs (Os.resolve s ++ [c]))) as [Heq|Hdiff].
      - rewrite Heq. exact Hfs.
      - apply Hframe in Hdiff as (Hnone & _). rewrite Hfs in Hnone. discriminate Hnone. }
    split; [split|exact Hfile].
    + intros Hdir content Hfs. rewrite (Hfile content Hfs) in Hdir. discriminate Hdir.
    + intros Hno. destruct (setup_dirs_nodes args fs s Hsd Hok c Hc)
        as [Hdir|(content & Hfs & _)]; [exact Hdir|].
      destruct (Hno content Hfs).
  - intros c Hc Hnot. split; [apply resolve_entry, Hc|].
    exact (setup_dirs_eleven_frame args fs s Hsd Hok c Hc Hnot).
Qed.

Lemma setup_dirs_eleven_witness :
  Os.node_at (setup_dirs Sample.args ∅).1 ["out"; "10"]%string = Some Os.Dir /\
  Os.node_at (setup_dirs Sample.args ∅).1 ["out"; "11"]%string = None.
Proof.
  assert (Hok : (setup_dirs Sample.args ∅).2 = Ok ()) by reflexivity.
  assert (Hup : ".."%string ∉ Os.resolve "out").
  { intros H. apply list_elem_of_In in H. simpl in H.
    destruct H as [H|H]; [discriminate H | exact H]. }
  destruct (setup_dirs_eleven Sample.args ∅ "out" eq_refl Hup Hok) as (_ & Hin & _ & Hother).
  clear Hok. split.
  - apply (proj1 (Hin "10"%string ltac:(unfold sequence_names; do 10 right; left))).
    intros content H. discriminate H.
  - assert (Hentry : Os.entry_name "11").
    { split; [reflexivity | repeat split; intros H; discriminate H]. }
    refine (eq_trans (proj2 (Hother "11"%string Hentry _)) _).
    + unfold sequence_names. intros H. apply list_elem_of_In in H. simpl in H.
      repeat (destruct H as [H|H]; [discriminate H|]). exact H.
    + vm_compute. reflexivity.
Defined.

(** C9 as stated fails with a regular file in the place of one of the
    directories: the set-up ends well, and the file is still there where
    the directory [08] should be. *)
Lemma setup_dirs_eleven_counterexample :
  (setup_dirs Sample.args SampleRun.file_at_08).2 = Ok () /\
  Os.node_at (setup_dirs Sample.args SampleRun.file_at_08).1 ["out"; "08"]%string
    = Some (Os.File []) /\
  Os.node_at (setup_dirs Sample.args SampleRun.file_at_08).1 ["out"; "08"]%string
    <> Some Os.Dir.
Proof.
  split; [reflexivity|]. split; [vm_compute; reflexivity|].
  intros H. vm_compute in H. discriminate H.
Qed.

(** ** The name of the output file *)

Lemma index_negative {A} (xs : list A) (i : Z) :
  - Z.of_nat (length xs) <= i < 0 ->
  Py.index xs i = of_option IndexError (xs !! Z.to_nat (Z.of_nat (length xs) + i)).
Proof.
  intros H. unfold Py.index.
  rewrite bool_decide_false by lia. rewrite bool_decide_true by lia. reflexivity.
Qed.

Lemma index_last3 {A} (pre : list A) (x y z : A) :
  Py.index (pre ++ [x; y; z]) (-3) = Ok x /\ Py.index (pre ++ [x; y; z]) (-1) = Ok z.
Proof.
  assert (Hlen : length (pre ++ [x; y; z]) = (length pre + 3)%nat).
  { rewrite length_app. reflexivity. }
  rewrite !index_negative by lia. rewrite Hlen.
  replace (Z.to_nat (Z.of_nat (length pre + 3) + -3)) with (length pre + 0)%nat by lia.
  replace (Z.to_nat (Z.of_nat (length pre + 3) + -1)) with (length pre + 2)%nat by lia.
  rewrite !lookup_app_r by lia.
  replace (length pre + 0 - length pre)%nat with 0%nat by lia.
  replace (length pre + 2 - length pre)%nat with 2%nat by lia.
  split; reflexivity.
Qed.

Lemma index_Ok_inv {A} (xs : list A) i x :
  Py.index xs i = Ok x ->
  (0 <= i < Z.of_nat (length xs) /\ xs !! Z.to_nat i = Some x) \/
  (- Z.of_nat (length xs) <= i < 0 /\ xs !! Z.to_nat (Z.of_nat (length xs) + i) = Some x).
Proof.
  unfold Py.index. case_bool_decide as H1.
  - destruct (xs !! Z.to_nat i) eqn:E; [|discriminate]. intros [= ->]. left. auto.
  - case_bool_decide as H2; [|discriminate].
    destruct (xs !! _) eqn:E; [|discriminate]. intros [= ->]. right. auto.
Qed.

(** A path with fewer than three components has no sequence. *)
Lemma index_last3_inv {A} (xs : list A) x z :
  Py.index xs (-3) = Ok x -> Py.index xs (-1) = Ok z ->
  exists pre y, xs = pre ++ [x; y; z].
Proof.
  intros [[H _]|[Hx Ex]]%index_Ok_inv [[H' _]|[Hz Ez]]%index_Ok_inv; try lia.
  destruct (lookup_lt_is_Some_2 xs (Z.to_nat (Z.of_nat (length xs) + -2))) as [y Ey]; [lia|].
  exists (take (Z.to_nat (Z.of_nat (length xs) + -3)) xs), y.
  apply list_eq. intros k.
  destruct (decide (k < Z.to_nat (Z.of_nat (length xs) + -3))%nat) as [Hlt|Hge].
  - rewrite lookup_app_l by (rewrite length_take; lia). rewrite lookup_take_lt by lia.
    reflexivity.
  - rewrite lookup_app_r by (rewrite length_take; lia). rewrite length_take.
    replace (Z.to_nat (Z.of_nat (length xs) + -3) `min` length xs)%nat
      with (length xs - 3)%nat by lia.
    replace (Z.to_nat (Z.of_nat (length xs) + -3)) with (length xs - 3)%nat in Ex by lia.
    replace (Z.to_nat (Z.of_nat (length xs) + -2)) with (length xs - 2)%nat in Ey by lia.
    replace (Z.to_nat (Z.of_nat (length xs) + -1)) with (length xs - 1)%nat in Ez by lia.
    destruct (decide (k = length xs - 3)%nat) as [->|].
    { rewrite Ex. replace (length xs - 3 - (length xs - 3))%nat with 0%nat by lia. reflexivity. }
    destruct (decide (k = length xs - 2)%nat) as [->|].
    { rewrite Ey. replace (length xs - 2 - (length xs - 3))%nat with 1%nat by lia. reflexivity. }
    destruct (decide (k = length xs - 1)%nat) as [->|].
    { rewrite Ez. replace (length xs - 1 - (length xs - 3))%nat with 2%nat by lia. reflexivity. }
    rewrite lookup_ge_None_2 by lia.
    destruct (k - (length xs - 3))%nat as [|[|[|j]]] eqn:Ek; try lia. reflexivity.
Qed.

Lemma string_length_app (a b : string) :
  String.length (a +:+ b) = (String.length a + String.length b)%nat.
Proof. induction a as [|c a IH]; [reflexivity|]. rewrite app_String. simpl. lia. Qed.

(** The words of the specification: the suffix, and only the suffix. *)
Lemma replace_suffix_app (old new id : string) :
  Spec.replace_suffix old new (id +:+ old) = id +:+ new.
Proof.
  induction id as [|c id IH].
  - rewrite !app_Empty. destruct old; cbn [Spec.replace_suffix];
      rewrite bool_decide_true by reflexivity; reflexivity.
  - rewrite !app_String. cbn [Spec.replace_suffix]. rewrite bool_decide_false.
    + rewrite IH. reflexivity.
    + intros H. apply (f_equal String.length) in H. simpl in H.
      rewrite string_length_app in H. lia.
Qed.

(** An occurrence of [.bin] does not begin in [id] and end in a [.bin]
    that follows [id]. *)
Lemma prefix_bin_app (id : string) :
  id <> EmptyString ->
  String.prefix ".bin" (id +:+ ".bin") = String.prefix ".bin" id.
Proof.
  intros Hne.
  destruct id as [|c1 [|c2 [|c3 [|c4 id]]]]; [contradiction| | | |];
    rewrite ?app_String, ?app_Empty; cbn [String.prefix];
    repeat match goal with
           | |- context [Ascii.ascii_dec ?a ?b] =>
               destruct (Ascii.ascii_dec a b) as [<-|?]; try reflexivity; try discriminate
           end.
  destruct (id +:+ ".bin"), id; reflexivity.
Qed.

(** [str.replace] on a name in which [.bin] occurs as the suffix only. *)
Lemma replace_bin_suffix (id : string) :
  Py.contains ".bin" id = false ->
  Py.replace ".bin" ".label" (id +:+ ".bin") = id +:+ ".label".
Proof.
  unfold Py.replace. induction id as [|c id IH]; intros Hno; [reflexivity|].
  cbn [Py.contains] in Hno. apply orb_false_iff in Hno as [Hpre Hno].
  rewrite !app_String. cbn [Py.replace_from]. rewrite <- app_String.
  rewrite prefix_bin_app by discriminate. rewrite Hpre, IH by exact Hno. reflexivity.
Qed.

Lemma write_file_Ok p bs fs fs' :
  Os.write_file p bs fs = Ok fs' ->
  fs' = <[Os.resolve p := Os.File bs]> fs /\
  Os.node_at fs (removelast (Os.resolve p)) = Some Os.Dir.
Proof.
  unfold Os.write_file. case_bool_decide; [discriminate|].
  destruct (Os.node_at fs (removelast _)) as [[|c]|]; try discriminate.
  destruct (Os.node_at fs _) as [[|c]|]; try discriminate;
    intros [= <-]; auto.
Qed.

Section FileName.
Context {feat score : Type} (gtb : score -> score -> bool).

(** A step that ends well has mapped the predictions, named the file
    and written it. *)
Lemma eval_step_Ok sd (fd : FeedDict feat) outputs fs fs' :
  eval_step gtb sd fd outputs fs = Ok fs' ->
  exists mapped path,
    map_outputs gtb fd outputs = Ok mapped /\
    output_file_name sd fd = Ok path /\
    fs' = <[Os.resolve path :=
              Os.File (Np.tobytes (Np.astype_uint32 (pred_eval mapped.1)))]> fs.
Proof.
  unfold eval_step. intros H. inv_bind H.
  apply write_file_Ok in H as [-> _]. eauto.
Qed.

(** A step ends well when the predictions can be mapped, the file can
    be named and its directory is there. *)
Lemma eval_step_run sd (fd : FeedDict feat) outputs fs mapped path :
  map_outputs gtb fd outputs = Ok mapped ->
  output_file_name sd fd = Ok path ->
  path <> EmptyString ->
  Os.node_at fs (removelast (Os.resolve path)) = Some Os.Dir ->
  Os.node_at fs (Os.resolve path) <> Some Os.Dir ->
  eval_step gtb sd fd outputs fs =
    Ok (<[Os.resolve path :=
            Os.File (Np.tobytes (Np.astype_uint32 (pred_eval mapped.1)))]> fs).
Proof.
  intros Hmap Hpath Hne Hdir Hfile. unfold eval_step. rewrite Hmap, Hpath.
  cbn [mbind result_bind]. unfold Os.write_file.
  rewrite bool_decide_false by exact Hne. rewrite Hdir.
  destruct (Os.node_at fs (Os.resolve path)) as [[|c]|]; [contradiction | |]; reflexivity.
Qed.
End FileName.

(** The step on the sample batch of two scenes. *)
Lemma sample_step :
  eval_step Z.gtb (Some "out"%string) Sample.two_scenes Sample.two_scenes_outputs
    Sample.out_dirs =
  Ok (<[["out"; "08"; "000123.label"]%string :=
          Os.File (Np.tobytes (Np.astype_uint32 (pred_eval [2; 1; 2; 0])))]> Sample.out_dirs).
Proof.
  apply (eval_step_run Z.gtb (Some "out"%string) Sample.two_scenes Sample.two_scenes_outputs
           Sample.out_dirs ([2; 1; 2; 0], [7; 8; 7; 9]) "out/08/000123.label").
  - vm_compute. reflexivity.
  - vm_compute. reflexivity.
  - discriminate.
  - vm_compute. reflexivity.
  - vm_compute. discriminate.
Defined.

Section OutputPath.
Context {feat score : Type} (gtb : score -> score -> bool).

(** Whenever the script names an output file, the first file name of
    the batch has at least three components. *)
Lemma output_file_name_inv sd (fd : FeedDict feat) path :
  output_file_name sd fd = Ok path ->
  exists s first pre sequence mid base,
    sd = Some s /\ head (file_name fd) = Some first /\
    Py.split "/" first = pre ++ [sequence; mid; base] /\
    path = (s +:+ "/") +:+ sequence +:+ "/" +:+ Py.replace ".bin" ".label" base.
Proof.
  unfold output_file_name. intros H. inv_bind H.
  destruct sd as [s|]; [|discriminate]. injection Ha0 as <-.
  destruct (index_last3_inv _ _ _ Ha1 Ha2) as (pre & mid & Hsplit).
  apply index_Ok_inv in Ha as [[_ Hfirst]|[Hneg _]]; [|lia].
  exists s, a, pre, a1, mid, a2. repeat split; try assumption.
  - destruct (file_name fd); [discriminate | exact Hfirst].
  - symmetry. exact H.
Qed.

(** What the script names the output file, whatever the base name. *)
Lemma output_file_name_replace (s : string) (fd : FeedDict feat)
    (first : string) (rest pre : list string) (sequence mid base : string) :
  file_name fd = first :: rest ->
  Py.split "/" first = pre ++ [sequence; mid; base] ->
  output_file_name (Some s) fd =
    Ok ((s +:+ "/") +:+ sequence +:+ "/" +:+ Py.replace ".bin" ".label" base).
Proof.
  intros Hfile Hsplit. unfold output_file_name. rewrite Hfile.
  replace (Py.index (first :: rest) 0) with (Ok first).
  2:{ unfold Py.index. rewrite bool_decide_true by (simpl length; lia). reflexivity. }
  simpl. rewrite Hsplit.
  destruct (index_last3 pre sequence mid base) as [-> ->]. reflexivity.
Qed.

(** C6, amended.  For a batch whose first file name has the components
    [...; sequence; mid; id.bin], with no [.bin] inside [id], the output
    label file is [<save_dir>/<sequence>/id.label]: the base file name
    with its suffix [.bin] replaced by [.label], in the directory named
    by the third-from-last component; and a step that ends well has
    written a file there. *)
Theorem output_file_name_path (s : string) (fd : FeedDict feat)
    (first : string) (rest pre : list string) (sequence mid id : string) :
  file_name fd = first :: rest ->
  Py.split "/" first = pre ++ [sequence; mid; id +:+ ".bin"] ->
  Py.contains ".bin" id = false ->
  output_file_name (Some s) fd = Ok (Spec.label_path s sequence (id +:+ ".bin")) /\
  Spec.label_path s sequence (id +:+ ".bin")
    = s +:+ "/" +:+ sequence +:+ "/" +:+ id +:+ ".label" /\
  (forall outputs fs fs',
     eval_step gtb (Some s) fd outputs fs = Ok fs' ->
     exists bytes,
       fs' !! Os.resolve (Spec.label_path s sequence (id +:+ ".bin"))
       = Some (Os.File bytes)).
Proof.
  intros Hfile Hsplit Hid.
  assert (Hname : output_file_name (Some s) fd
                  = Ok (Spec.label_path s sequence (id +:+ ".bin"))).
  { rewrite (output_file_name_replace s fd first rest pre sequence mid _ Hfile Hsplit).
    unfold Spec.label_path. rewrite replace_bin_suffix by exact Hid.
    rewrite replace_suffix_app, string_app_assoc. reflexivity. }
  split; [exact Hname|]. split.
  - unfold Spec.label_path. rewrite replace_suffix_app. reflexivity.
  - intros outputs fs fs' (mapped & path' & _ & Hpath & ->)%eval_step_Ok.
    rewrite Hname in Hpath. injection Hpath as <-.
    eexists. apply lookup_insert_eq.
Qed.
End OutputPath.

Lemma output_file_name_path_witness :
  output_file_name (Some "out"%string) Sample.two_scenes = Ok "out/08/000123.label"%string.
Proof.
  refine (proj1 (output_file_name_path (score := Z) Z.gtb "out" _
            "/data/sequences/08/velodyne/000123.bin" []
            [""; "data"; "sequences"]%string "08" "velodyne" "000123" _ _ _)).
  - reflexivity.
  - reflexivity.
  - reflexivity.
Defined.

(** C6 as stated fails on a base name in which [.bin] occurs before the
    suffix: the script replaces both occurrences, the specification the
    suffix.  The step for such a scan ends well and writes
    [a.label.label]; no file [a.bin.label] is written. *)
Lemma output_file_name_counterexample :
  exists fs',
    eval_step Z.gtb (Some "out"%string) Sample.twice_bin [[0; 1]] Sample.out_dirs = Ok fs' /\
    output_file_name (Some "out"%string) Sample.twice_bin = Ok "out/08/a.label.label"%string /\
    Os.node_at fs' ["out"; "08"; "a.label.label"]%string
      = Some (Os.File (Np.tobytes [1])) /\
    Spec.label_path "out" "08" "a.bin.bin" = "out/08/a.bin.label"%string /\
    Os.node_at fs' (Os.resolve (Spec.label_path "out" "08" "a.bin.bin")) = None /\
    output_file_name (Some "out"%string) Sample.twice_bin
      <> Ok (Spec.label_path "out" "08" "a.bin.bin").
Proof.
  eexists. split.
  - apply (eval_step_run Z.gtb (Some "out"%string) Sample.twice_bin [[0; 1]]
             Sample.out_dirs ([1], [0]) "out/08/a.label.label").
    + vm_compute. reflexivity.
    + vm_compute. reflexivity.
    + discriminate.
    + vm_compute. reflexivity.
    + vm_compute. discriminate.
  - split; [reflexivity|]. split; [vm_compute; reflexivity|].
    split; [reflexivity|]. split; [vm_compute; reflexivity|].
    intros H. vm_compute in H. discriminate H.
Qed.

(** ** Unsigned 32-bit arithmetic and the label file *)

Lemma u32_range z : 0 <= Np.u32 z < 2 ^ 32.
Proof. unfold Np.u32, Np.u32_modulus. apply Z.mod_pos_bound. lia. Qed.

Lemma u32_small z : 0 <= z < 2 ^ 32 -> Np.u32 z = z.
Proof. intros H. unfold Np.u32, Np.u32_modulus. apply Z.mod_small. exact H. Qed.

Lemma u32_idem z : Np.u32 (Np.u32 z) = Np.u32 z.
Proof. apply u32_small, u32_range. Qed.

(** With the instance label zero, a cell of [pred_eval] is the semantic
    label. *)
Lemma encode_zero sem : encode (Np.u32 sem) (Np.u32 0) = Np.u32 sem.
Proof. unfold encode. change (Np.u32 (Z.shiftl (Np.u32 0) 16)) with 0.
  rewrite Z.add_0_r. apply u32_idem. Qed.

Lemma pred_eval_cells outputs :
  pred_eval outputs = (fun cls => encode (Np.u32 cls) (Np.u32 0)) <$> outputs.
Proof.
  unfold pred_eval, Np.add, Np.lshift, Np.astype_uint32, Np.zeros_like.
  induction outputs as [|o outputs IH]; [reflexivity|].
  simpl. f_equal. exact IH.
Qed.

Lemma pred_eval_u32 outputs : pred_eval outputs = Np.u32 <$> outputs.
Proof.
  rewrite pred_eval_cells. apply list_fmap_ext. intros _ cls _. apply encode_zero.
Qed.

Lemma astype_pred_eval outputs : Np.astype_uint32 (pred_eval outputs) = pred_eval outputs.
Proof.
  rewrite pred_eval_u32. unfold Np.astype_uint32.
  induction outputs as [|o outputs IH]; [reflexivity|].
  cbn [fmap list_fmap] in *. rewrite u32_idem. f_equal. exact IH.
Qed.

Lemma length_tobytes a : length (Np.tobytes a) = (4 * length a)%nat.
Proof.
  unfold Np.tobytes. induction a as [|w a IH]; [reflexivity|].
  change ((w :: a) ≫= Np.bytes_of_u32) with (Np.bytes_of_u32 w ++ (a ≫= Np.bytes_of_u32)).
  rewrite length_app, IH. simpl. lia.
Qed.

(** Reading the file back gives the cells that were written. *)
Lemma frombytes_tobytes a :
  Forall (fun w => 0 <= w < 2 ^ 32) a -> Np.frombytes (Np.tobytes a) = a.
Proof.
  unfold Np.tobytes. induction 1 as [|w a Hw _ IH]; [reflexivity|].
  change ((w :: a) ≫= Np.bytes_of_u32) with (Np.bytes_of_u32 w ++ (a ≫= Np.bytes_of_u32)).
  unfold Np.bytes_of_u32 at 1. cbn [app Np.frombytes].
  rewrite IH. f_equal.
  assert (E2 : w / 65536 = w / 256 / 256) by (rewrite Z.div_div by lia; reflexivity).
  assert (E3 : w / 16777216 = w / 256 / 256 / 256) by (rewrite !Z.div_div by lia; reflexivity).
  rewrite E2, E3. clear E2 E3.
  pose proof (Z.div_mod w 256 ltac:(lia)).
  pose proof (Z.mod_pos_bound w 256 ltac:(lia)).
  set (q1 := w / 256) in *.
  pose proof (Z.div_mod q1 256 ltac:(lia)).
  pose proof (Z.mod_pos_bound q1 256 ltac:(lia)).
  set (q2 := q1 / 256) in *.
  pose proof (Z.div_mod q2 256 ltac:(lia)).
  pose proof (Z.mod_pos_bound q2 256 ltac:(lia)).
  set (q3 := q2 / 256) in *.
  rewrite (Z.mod_small q3) by lia. lia.
Qed.

(** ** Packing and unpacking a label *)

Lemma encode_zero_instance sem : 0 <= sem < 2 ^ 32 -> encode sem 0 = sem.
Proof.
  intros H. unfold encode. change (Np.u32 (Z.shiftl 0 16)) with 0.
  rewrite Z.add_0_r. apply u32_small. exact H.
Qed.

Lemma decode_div_mod w : Spec.decode w = (w mod 2 ^ 16, w / 2 ^ 16).
Proof.
  unfold Spec.decode. rewrite Z.land_ones by lia. rewrite Z.shiftr_div_pow2 by lia.
  reflexivity.
Qed.

(** Below [2 ^ 16] on both sides, adding the shifted instance label is
    the bitwise or of the specification. *)
Lemma encode_label sem ins :
  0 <= sem < 2 ^ 16 -> 0 <= ins < 2 ^ 16 -> encode sem ins = Spec.label sem ins.
Proof.
  intros Hs Hi. unfold encode, Spec.label.
  rewrite Z.shiftl_mul_pow2 by lia.
  rewrite (u32_small (ins * 2 ^ 16)) by lia. rewrite u32_small by lia.
  rewrite Z.add_nocarry_lxor, Z.lxor_lor; try reflexivity.
  all: apply Z.bits_inj'; intros k Hk; rewrite Z.land_spec, Z.bits_0;
    destruct (Z.lt_ge_cases k 16) as [Hlt|Hge].
  all: try (rewrite Z.mul_pow2_bits_low by lia; apply andb_false_r).
  all: rewrite <- (Z.mod_small sem (2 ^ 16)) by lia;
    rewrite Z.mod_pow2_bits_high by lia; reflexivity.
Qed.

Lemma encode_decode sem ins :
  0 <= sem < 2 ^ 16 -> 0 <= ins < 2 ^ 16 -> Spec.decode (encode sem ins) = (sem, ins).
Proof.
  intros Hs Hi. rewrite decode_div_mod. unfold encode.
  rewrite Z.shiftl_mul_pow2 by lia.
  rewrite (u32_small (ins * 2 ^ 16)) by lia. rewrite u32_small by lia.
  f_equal.
  - rewrite Z.mod_add by lia. apply Z.mod_small. exact Hs.
  - rewrite Z.div_add by lia. rewrite Z.div_small by lia. reflexivity.
Qed.

(** C3, amended.  For a semantic value [sem] of the [uint32] array and the
    instance value 0, decoding the packed label gives back [(sem, 0)]
    exactly when [sem] is below [2 ^ 16], that is, when it fits the 16
    bits the decoding reads it from. *)
Theorem encode_decode_roundtrip (sem : Z) :
  0 <= sem < 2 ^ 32 ->
  (Spec.decode (encode sem 0) = (sem, 0) <-> sem < 2 ^ 16).
Proof.
  intros H. rewrite encode_zero_instance by exact H. rewrite decode_div_mod. split.
  - intros [= _ Hdiv]. apply Z.div_small_iff in Hdiv; lia.
  - intros Hlt. rewrite Z.mod_small, Z.div_small by lia. reflexivity.
Qed.

Lemma encode_decode_roundtrip_witness : Spec.decode (encode 19 0) = (19, 0).
Proof.
  apply (proj2 (encode_decode_roundtrip 19 ltac:(lia))). lia.
Defined.

(** C3 as stated fails at the semantic value [2 ^ 16]: its bit 16 is read
    back as the instance part. *)
Lemma encode_decode_counterexample :
  Spec.decode (encode 65536 0) = (0, 1) /\
  Spec.decode (encode 65536 0) <> (65536, 0).
Proof. split; [reflexivity | discriminate]. Qed.

(** ** The mapping of the predictions back to the points *)

Lemma mapM_Ok {A B} (f : A -> result B) (l : list A) (k : list B) :
  mapM (M := result) f l = Ok k <-> Forall2 (fun x y => f x = Ok y) l k.
Proof.
  revert k. induction l as [|x l IH]; intros k; simpl.
  - split; [intros [= <-]; constructor | intros H; inversion H; reflexivity].
  - split.
    + intros H. apply bind_Ok in H as (y & Hy & H). apply bind_Ok in H as (k' & Hk & H).
      injection H as <-. constructor; [exact Hy|]. apply IH. exact Hk.
    + intros H. inversion H as [|? y ? k' Hy Hk]; subst.
      rewrite Hy. simpl. apply IH in Hk. rewrite Hk. reflexivity.
Qed.

(** Selecting by the mask of a batch index is filtering the rows that
    carry this index. *)
Lemma select_batch {A} (cs : list Torch.coord) (xs : list A) (idx : Z) :
  Torch.select (Torch.eq_scalar (Torch.last_column cs) idx) xs =
  snd <$> List.filter (fun p => bool_decide (Torch.cb p.1 = idx)) (zip cs xs).
Proof.
  revert xs. induction cs as [|c cs IH]; intros [|x xs]; try reflexivity.
  cbn [Torch.last_column Torch.eq_scalar fmap list_fmap Torch.select zip zip_with List.filter fst].
  fold (Torch.last_column cs). fold (Torch.eq_scalar (Torch.last_column cs) idx).
  fold (zip cs xs).
  case_bool_decide; cbn [fmap list_fmap snd]; rewrite IH; reflexivity.
Qed.

Lemma mask_index_Ok {A} (t : list A) mask r :
  Torch.mask_index t mask = Ok r <-> length mask = length t /\ r = Torch.select mask t.
Proof.
  unfold Torch.mask_index. case_bool_decide as H; split.
  - intros [= <-]. auto.
  - intros [_ ->]. reflexivity.
  - discriminate.
  - intros [H' _]. contradiction.
Qed.

Lemma length_eq_scalar cs idx :
  length (Torch.eq_scalar (Torch.last_column cs) idx) = length cs.
Proof. unfold Torch.eq_scalar, Torch.last_column. rewrite !length_fmap. reflexivity. Qed.

Section Mapping.
Context {feat score : Type} (gtb : score -> score -> bool).
Import Torch.

Implicit Types (inputs : SparseTensor feat) (invs all_labels : SparseTensor Z)
               (outputs : list (list score)).

(** The loop appends, scene after scene, what its body computes. *)
Lemma scene_loop_Ok inputs invs all_labels outputs idxs acc acc' :
  scene_loop gtb inputs invs all_labels outputs idxs acc = Ok acc' <->
  exists ms,
    Forall2 (fun idx m => scene_step gtb inputs invs all_labels outputs idx = Ok m) idxs ms /\
    acc' = (acc.1 ++ ms.*1, acc.2 ++ ms.*2).
Proof.
  revert acc. induction idxs as [|idx idxs IH]; intros acc; cbn [scene_loop].
  - split.
    + intros [= <-]. exists []. split; [constructor|].
      rewrite !app_nil_r. destruct acc; reflexivity.
    + intros (ms & Hms & ->). inversion Hms. cbn [fmap list_fmap].
      rewrite !app_nil_r. destruct acc; reflexivity.
  - rewrite bind_Ok. split.
    + intros (m & Hm & Hrest). apply IH in Hrest as (ms & Hms & ->).
      exists (m :: ms). split; [constructor; assumption|].
      cbn [fst snd fmap list_fmap]. rewrite <- !app_assoc. reflexivity.
    + intros (ms & Hms & ->). inversion Hms as [|? m ? ms' Hm Hms']; subst.
      exists m. split; [exact Hm|]. apply IH. exists ms'. split; [exact Hms'|].
      cbn [fst snd fmap list_fmap]. rewrite <- !app_assoc. reflexivity.
Qed.

(** What the body computes for scene [idx]. *)
Lemma scene_step_Ok inputs invs all_labels outputs idx o t :
  scene_step gtb inputs invs all_labels outputs idx = Ok (o, t) <->
  length (C invs) = length (F invs) /\
  length (C inputs) = length outputs /\
  length (C all_labels) = length (F all_labels) /\
  t = select (eq_scalar (last_column (C all_labels)) idx) (F all_labels) /\
  Forall2 (fun i cls => exists row,
               Py.index (select (eq_scalar (last_column (C inputs)) idx) outputs) i = Ok row /\
               argmax_row gtb row = Ok cls)
          (select (eq_scalar (last_column (C invs)) idx) (F invs)) o.
Proof.
  unfold scene_step. split.
  - intros H.
    apply bind_Ok in H as (cur_inv & Ha & H). apply bind_Ok in H as (scene & Ha0 & H).
    apply bind_Ok in H as (rows & Ha1 & H). apply bind_Ok in H as (om & Ha2 & H).
    apply bind_Ok in H as (tm & Ha3 & H).
    apply mask_index_Ok in Ha as [L1 ->]. apply mask_index_Ok in Ha0 as [L2 ->].
    apply mask_index_Ok in Ha3 as [L3 ->]. rewrite length_eq_scalar in L1, L2, L3.
    assert (om = o /\ select (eq_scalar (last_column (C all_labels)) idx) (F all_labels) = t)
      as [-> <-] by (split; congruence).
    clear H. repeat (split; [first [assumption | reflexivity]|]).
    apply mapM_Ok in Ha1. apply mapM_Ok in Ha2.
    clear -Ha1 Ha2. revert o Ha2. induction Ha1 as [|i row ? ? Hi _ IH]; intros o Ho.
    + inversion Ho. constructor.
    + inversion Ho as [|? cls ? o' Hcls Ho']; subst. constructor; [eauto | apply IH, Ho'].
  - intros (L1 & L2 & L3 & -> & Hall).
    rewrite (proj2 (mask_index_Ok (F invs) _ _)) by (rewrite length_eq_scalar; auto).
    cbn [mbind result_bind].
    rewrite (proj2 (mask_index_Ok outputs _ _)) by (rewrite length_eq_scalar; auto).
    cbn [mbind result_bind].
    assert (exists rows,
               Forall2 (fun i row =>
                 Py.index (select (eq_scalar (last_column (C inputs)) idx) outputs) i = Ok row)
                 (select (eq_scalar (last_column (C invs)) idx) (F invs)) rows /\
               Forall2 (fun row cls => argmax_row gtb row = Ok cls) rows o)
      as (rows & Hrows & Hcls).
    { clear -Hall. induction Hall as [|i cls ? ? (row & Hi & Hc) _ (rows & H1 & H2)].
      - exists []. split; constructor.
      - exists (row :: rows). split; constructor; assumption. }
    unfold gather. rewrite (proj2 (mapM_Ok _ _ _) Hrows). cbn [mbind result_bind].
    unfold argmax1. rewrite (proj2 (mapM_Ok _ _ _) Hcls). cbn [mbind result_bind].
    rewrite (proj2 (mask_index_Ok (F all_labels) _ _)) by (rewrite length_eq_scalar; auto).
    reflexivity.
Qed.
End Mapping.

Lemma cat_Ok {A} (ts : list (list A)) r :
  Torch.cat ts = Ok r <-> ts <> [] /\ r = concat ts.
Proof.
  destruct ts as [|t ts]; simpl; split.
  - discriminate.
  - intros [[] _]. reflexivity.
  - intros [= <-]. split; [discriminate | reflexivity].
  - intros [_ ->]. reflexivity.
Qed.

Lemma range_nil n : Py.range n = [] <-> n <= 0.
Proof.
  unfold Py.range. split.
  - intros H. apply (f_equal length) in H. rewrite length_fmap, length_seq in H.
    simpl in H. lia.
  - intros H. replace (Z.to_nat n) with 0%nat by lia. reflexivity.
Qed.

Lemma elem_of_range n i : i ∈ Py.range n <-> 0 <= i < n.
Proof.
  unfold Py.range. rewrite list_elem_of_fmap. split.
  - intros (k & -> & Hk). apply elem_of_seq in Hk. lia.
  - intros H. exists (Z.to_nat i). split; [lia|]. apply elem_of_seq. lia.
Qed.

Lemma select_Forall {A} (P : A -> Prop) mask (t : list A) :
  Forall P t -> Forall P (Torch.select mask t).
Proof.
  intros H. revert mask. induction H as [|x t Hx _ IH]; intros [|[] mask]; simpl;
    try constructor; auto.
Qed.

Section Refinement.
Context {feat score : Type} (gtb : score -> score -> bool).
Import Torch.

Lemma map_outputs_Ok (fd : FeedDict feat) (outputs : list (list score)) o t :
  map_outputs gtb fd outputs = Ok (o, t) <->
  exists n ms,
    Torch.max (last_column (C (inverse_map fd))) = Ok n /\ 0 <= n /\
    Forall2 (fun idx m =>
               scene_step gtb (lidar fd) (inverse_map fd) (targets_mapped fd) outputs idx
               = Ok m) (Py.range (n + 1)) ms /\
    o = concat ms.*1 /\ t = concat ms.*2.
Proof.
  unfold map_outputs. split.
  - intros H. apply bind_Ok in H as (n & Hn & H). apply bind_Ok in H as (acc & Hacc & H).
    apply bind_Ok in H as (o' & Ho & H). apply bind_Ok in H as (t' & Ht & H).
    assert (o' = o /\ t' = t) as [-> ->] by (split; congruence). clear H.
    apply scene_loop_Ok in Hacc as (ms & Hms & ->). cbn [fst snd app] in Ho, Ht.
    apply cat_Ok in Ho as [Hne ->]. apply cat_Ok in Ht as [_ ->].
    exists n, ms. split; [exact Hn|]. split.
    + destruct (Z.lt_ge_cases n 0) as [Hneg|]; [|assumption].
      exfalso. apply Hne. apply Forall2_length in Hms.
      rewrite (proj2 (range_nil (n + 1))) in Hms by lia.
      destruct ms; [reflexivity | discriminate].
    + auto.
  - intros (n & ms & Hn & Hpos & Hms & -> & ->). rewrite Hn. cbn [mbind result_bind].
    rewrite (proj2 (scene_loop_Ok gtb _ _ _ _ _ ([], []) ([] ++ ms.*1, [] ++ ms.*2)))
      by (exists ms; split; [exact Hms | reflexivity]).
    cbn [mbind result_bind fst snd app].
    assert (Hne : ms <> []).
    { intros ->. apply Forall2_length in Hms. simpl in Hms.
      apply length_zero_iff_nil, range_nil in Hms. lia. }
    rewrite (proj2 (cat_Ok ms.*1 _)) by (split; [destruct ms; [contradiction|discriminate] | reflexivity]).
    cbn [mbind result_bind].
    rewrite (proj2 (cat_Ok ms.*2 _)) by (split; [destruct ms; [contradiction|discriminate] | reflexivity]).
    reflexivity.
Qed.

(** For an index that is not negative, the class the script finds is
    the class of the voxel at this row. *)
Lemma voxel_class_gather (rows : list (list score)) (i cls : Z) :
  0 <= i ->
  (exists row, Py.index rows i = Ok row /\ argmax_row gtb row = Ok cls) <->
  Spec.voxel_class gtb rows i = Some cls.
Proof.
  intros Hi. unfold Spec.voxel_class, Py.index.
  rewrite (bool_decide_true (0 <= i)) by exact Hi.
  destruct (decide (i < Z.of_nat (length rows))) as [Hlt|Hge].
  - rewrite bool_decide_true by lia.
    destruct (rows !! Z.to_nat i) as [[|x row]|]; simpl; split.
    + intros (row & [= <-] & H). discriminate H.
    + discriminate.
    + intros (r & [= <-] & [= <-]). reflexivity.
    + intros [= <-]. eauto.
    + intros (row & H & _). discriminate H.
    + discriminate.
  - rewrite !bool_decide_false by lia.
    rewrite (lookup_ge_None_2 rows) by lia. split.
    + intros (row & H & _). discriminate H.
    + discriminate.
Qed.

Lemma scene_step_mapped (inputs : SparseTensor feat) invs (outputs : list (list score)) idx o :
  Forall (fun i => 0 <= i) (F invs) ->
  Forall2 (fun i cls => exists row,
               Py.index (select (eq_scalar (last_column (C inputs)) idx) outputs) i = Ok row /\
               argmax_row gtb row = Ok cls)
          (select (eq_scalar (last_column (C invs)) idx) (F invs)) o <->
  Spec.mapped_scene gtb (C inputs) outputs invs idx = Some o.
Proof.
  intros Hpos. unfold Spec.mapped_scene, Spec.scene_rows, Spec.scene_inverse.
  rewrite mapM_Some, <- !select_batch.
  pose proof (select_Forall _ (eq_scalar (last_column (C invs)) idx) _ Hpos) as Hsel.
  revert o. induction Hsel as [|i rest Hi _ IH]; intros o; split; intros H;
    inversion H as [|? cls ? o' Hcls Ho']; subst; constructor;
    first [apply IH; assumption | apply voxel_class_gather; assumption
          | apply voxel_class_gather in Hcls; assumption].
Qed.
End Refinement.

(** [t.max()] is the greatest entry of [t]. *)
Lemma max_greatest (t : list Z) (n : Z) :
  Torch.max t = Ok n -> n ∈ t /\ Forall (fun x => x <= n) t.
Proof.
  destruct t as [|x t]; [discriminate|]. simpl. intros [= <-].
  assert (H : forall acc, (foldl Z.max acc t = acc \/ foldl Z.max acc t ∈ t) /\
                          acc <= foldl Z.max acc t /\
                          Forall (fun y => y <= foldl Z.max acc t) t).
  { induction t as [|y t IH]; intros acc; simpl.
    - split; [left; reflexivity|]. split; [lia | constructor].
    - destruct (IH (Z.max acc y)) as ([Heq|Hin] & Hle & Hall).
      + split; [|split; [lia | constructor; [lia | exact Hall]]].
        rewrite Heq. destruct (Z.max_spec acc y) as [[_ ->]|[_ ->]];
          [right; left | left; reflexivity].
      + split; [right; right; exact Hin|]. split; [lia|]. constructor; [lia | exact Hall]. }
  destruct (H x) as ([Heq|Hin] & Hle & Hall).
  - rewrite Heq in *. split; [left | constructor; [lia | exact Hall]].
  - split; [right; exact Hin | constructor; [exact Hle | exact Hall]].
Qed.

Section MappedOutputs.
Context {feat score : Type} (gtb : score -> score -> bool).
Import Torch.

(** C1.  With inverse-map indices that are not negative: when the
    script returns the mapped predictions [o] of a batch, [o] is, for
    the scenes [0] to [n] in this order, [n] the greatest batch index of
    the inverse map, the predictions of the scene one after the other,
    where the prediction of a point of a scene is the arg-max of the row
    its inverse-map index selects among the output rows whose coordinate
    has the batch index of the scene; and the script does return them
    when the tensors have matching lengths and every point has such a
    row. *)
Theorem map_outputs_refines (fd : FeedDict feat) (outputs : list (list score)) :
  Forall (fun i => 0 <= i) (F (inverse_map fd)) ->
  (forall o t, map_outputs gtb fd outputs = Ok (o, t) ->
     exists n,
       Torch.max (last_column (C (inverse_map fd))) = Ok n /\
       n ∈ last_column (C (inverse_map fd)) /\
       Forall (fun b => b <= n) (last_column (C (inverse_map fd))) /\
       Spec.mapped gtb (C (lidar fd)) outputs (inverse_map fd) n = Some o) /\
  (forall n o,
     Torch.max (last_column (C (inverse_map fd))) = Ok n -> 0 <= n ->
     length (C (lidar fd)) = length outputs ->
     length (C (inverse_map fd)) = length (F (inverse_map fd)) ->
     length (C (targets_mapped fd)) = length (F (targets_mapped fd)) ->
     Spec.mapped gtb (C (lidar fd)) outputs (inverse_map fd) n = Some o ->
     exists t, map_outputs gtb fd outputs = Ok (o, t)).
Proof.
  intros Hpos. split.
  - intros o t (n & ms & Hn & Hn0 & Hms & -> & _)%map_outputs_Ok.
    exists n. split; [exact Hn|].
    destruct (max_greatest _ _ Hn) as [Hin Hall]. split; [exact Hin|]. split; [exact Hall|].
    unfold Spec.mapped.
    assert (mapM (Spec.mapped_scene gtb (C (lidar fd)) outputs (inverse_map fd))
              (Py.range (n + 1)) = Some ms.*1) as ->; [|reflexivity].
    apply mapM_Some. apply Forall2_fmap_r.
    eapply Forall2_impl; [exact Hms|]. intros idx [o' t'] Hstep.
    apply scene_step_Ok in Hstep as (_ & _ & _ & _ & Hall').
    apply scene_step_mapped; assumption.
  - intros n o Hn Hn0 L1 L2 L3 Hspec. unfold Spec.mapped in Hspec.
    destruct (mapM _ _) as [os|] eqn:Hos; [|discriminate]. injection Hspec as <-.
    apply mapM_Some in Hos.
    set (tsel := fun idx =>
           select (eq_scalar (last_column (C (targets_mapped fd))) idx)
                  (F (targets_mapped fd))).
    assert (exists ms,
              Forall2 (fun idx m =>
                scene_step gtb (lidar fd) (inverse_map fd) (targets_mapped fd) outputs idx
                = Ok m) (Py.range (n + 1)) ms /\ ms.*1 = os) as (ms & Hms & <-).
    { clear Hn0 Hn. induction Hos as [|idx o' idxs os Ho _ (ms & Hms & <-)].
      - exists []. split; [constructor | reflexivity].
      - exists ((o', tsel idx) :: ms). split; [|reflexivity].
        constructor; [|exact Hms]. apply scene_step_Ok.
        repeat (split; [first [assumption | reflexivity]|]).
        apply scene_step_mapped; assumption. }
    exists (concat ms.*2). apply map_outputs_Ok. exists n, ms. auto.
Qed.
End MappedOutputs.

Lemma map_outputs_refines_witness :
  map_outputs Z.gtb Sample.two_scenes Sample.two_scenes_outputs
    = Ok ([2; 1; 2; 0], [7; 8; 7; 9]) /\
  Spec.mapped Z.gtb (Torch.C (lidar Sample.two_scenes)) Sample.two_scenes_outputs
    (inverse_map Sample.two_scenes) 1 = Some [2; 1; 2; 0].
Proof.
  assert (Hpos : Forall (fun i => 0 <= i) (Torch.F (inverse_map Sample.two_scenes))).
  { repeat constructor; discriminate. }
  assert (Hrun : map_outputs Z.gtb Sample.two_scenes Sample.two_scenes_outputs
                 = Ok ([2; 1; 2; 0], [7; 8; 7; 9])) by reflexivity.
  split; [exact Hrun|].
  destruct (proj1 (map_outputs_refines Z.gtb Sample.two_scenes Sample.two_scenes_outputs Hpos)
              _ _ Hrun) as (n & Hn & _ & _ & Hspec).
  injection Hn as <-. exact Hspec.
Defined.

(** ** The size of the label file *)

Lemma sum_list_cons (x : nat) (l : list nat) : sum_list (x :: l) = (x + sum_list l)%nat.
Proof. reflexivity. Qed.

Lemma sum_list_fmap_add {A} (f g : A -> nat) (l : list A) :
  sum_list ((fun x => f x + g x)%nat <$> l) = (sum_list (f <$> l) + sum_list (g <$> l))%nat.
Proof.
  induction l as [|x l IH]; [reflexivity|].
  rewrite !fmap_cons, !sum_list_cons, IH. lia.
Qed.

Lemma sum_list_indicator_0 (c : Z) (idxs : list Z) :
  c ∉ idxs ->
  sum_list ((fun idx => if bool_decide (c = idx) then 1 else 0)%nat <$> idxs) = 0%nat.
Proof.
  induction idxs as [|j idxs IH]; intros Hni; [reflexivity|].
  rewrite fmap_cons, sum_list_cons, bool_decide_false, IH.
  - reflexivity.
  - intros H. apply Hni. right. exact H.
  - intros ->. apply Hni. left.
Qed.

(** Among indices without repetition, exactly one is a given member. *)
Lemma sum_list_indicator (c : Z) (idxs : list Z) :
  NoDup idxs -> c ∈ idxs ->
  sum_list ((fun idx => if bool_decide (c = idx) then 1 else 0)%nat <$> idxs) = 1%nat.
Proof.
  induction 1 as [|i idxs Hni Hnd IH]; intros Hin; [inversion Hin|].
  rewrite fmap_cons, sum_list_cons. case_bool_decide as Hc.
  - subst i. rewrite sum_list_indicator_0 by exact Hni. reflexivity.
  - apply elem_of_cons in Hin as [->|Hin]; [contradiction|]. rewrite IH by exact Hin.
    reflexivity.
Qed.

(** Every row goes to exactly one scene. *)
Lemma sum_select_lengths {A} (col : list Z) (xs : list A) (idxs : list Z) :
  NoDup idxs -> length col = length xs -> Forall (fun c => c ∈ idxs) col ->
  sum_list ((fun idx => length (Torch.select (Torch.eq_scalar col idx) xs)) <$> idxs)
  = length xs.
Proof.
  intros Hnd. revert xs. induction col as [|c col IH]; intros [|x xs] Hlen Hall;
    try discriminate.
  - clear. induction idxs as [|i idxs IHi]; [reflexivity|].
    rewrite fmap_cons, sum_list_cons, IHi. reflexivity.
  - inversion Hall as [|? ? Hc Hall']; subst. injection Hlen as Hlen.
    transitivity (sum_list ((fun idx =>
                    (if bool_decide (c = idx) then 1 else 0) +
                    length (Torch.select (Torch.eq_scalar col idx) xs))%nat <$> idxs)).
    + f_equal. apply list_fmap_ext. intros _ idx _. simpl.
      case_bool_decide; reflexivity.
    + rewrite (sum_list_fmap_add
                 (fun idx => if bool_decide (c = idx) then 1 else 0)%nat
                 (fun idx => length (Torch.select (Torch.eq_scalar col idx) xs))).
      rewrite sum_list_indicator, IH by assumption. reflexivity.
Qed.

Lemma length_concat_sum {A} (l : list (list A)) :
  length (concat l) = sum_list (length <$> l).
Proof.
  induction l as [|x l IH]; [reflexivity|].
  rewrite fmap_cons, sum_list_cons, <- IH. apply length_app.
Qed.

Lemma NoDup_range n : NoDup (Py.range n).
Proof. unfold Py.range. apply NoDup_fmap_2; [apply Nat2Z.inj' | apply NoDup_seq]. Qed.

Section FileSize.
Context {feat score : Type} (gtb : score -> score -> bool).
Import Torch.

(** One mapped prediction for each entry of the inverse map. *)
Lemma map_outputs_length (fd : FeedDict feat) (outputs : list (list score)) o t :
  Forall (fun c => 0 <= cb c) (C (inverse_map fd)) ->
  map_outputs gtb fd outputs = Ok (o, t) ->
  length o = length (F (inverse_map fd)) /\
  length (C (inverse_map fd)) = length (F (inverse_map fd)).
Proof.
  intros Hpos (n & ms & Hn & Hn0 & Hms & -> & _)%map_outputs_Ok.
  assert (Hlen : length (C (inverse_map fd)) = length (F (inverse_map fd))).
  { destruct (Py.range (n + 1)) as [|idx idxs] eqn:Hr; [apply range_nil in Hr; lia|].
    inversion Hms as [|? [o' t'] ? ? Hstep _]; subst.
    apply scene_step_Ok in Hstep as (H & _). exact H. }
  split; [|exact Hlen].
  rewrite <- (sum_select_lengths (last_column (C (inverse_map fd)))
                (F (inverse_map fd)) (Py.range (n + 1))).
  - rewrite length_concat_sum. f_equal. clear Hn Hn0.
    induction Hms as [|idx [o' t'] idxs ms Hstep _ IH]; [reflexivity|].
    cbn [fmap list_fmap fst]. f_equal; [|exact IH].
    apply scene_step_Ok in Hstep as (_ & _ & _ & _ & Hall).
    apply Forall2_length in Hall. symmetry. exact Hall.
  - apply NoDup_range.
  - unfold last_column. rewrite length_fmap. exact Hlen.
  - destruct (max_greatest _ _ Hn) as [_ Hle].
    unfold last_column in *. rewrite Forall_fmap in Hle |- *.
    rewrite Forall_forall in Hpos, Hle |- *. intros c Hc. apply elem_of_range.
    specialize (Hpos c Hc). specialize (Hle c Hc). simpl in Hle. lia.
Qed.

(** C4.  When a step writes its label file, the file holds four bytes
    for each entry of the inverse map of the batch, that is, with one
    scan in the batch, for each point of the scan. *)
Theorem label_file_size sd (fd : FeedDict feat) (outputs : list (list score)) fs fs' :
  Forall (fun c => 0 <= cb c) (C (inverse_map fd)) ->
  eval_step gtb sd fd outputs fs = Ok fs' ->
  exists path bytes,
    output_file_name sd fd = Ok path /\
    fs' !! Os.resolve path = Some (Os.File bytes) /\
    length bytes = (length (F (inverse_map fd)) * 4)%nat /\
    length (C (inverse_map fd)) = length (F (inverse_map fd)).
Proof.
  intros Hpos (mapped & path & Hmap & Hpath & ->)%eval_step_Ok.
  destruct mapped as [o t]. apply map_outputs_length in Hmap as [Hlen HCF]; [|exact Hpos].
  exists path, (Np.tobytes (Np.astype_uint32 (pred_eval o))).
  split; [exact Hpath|]. split; [apply lookup_insert_eq|]. split; [|exact HCF].
  rewrite length_tobytes, astype_pred_eval, pred_eval_u32, length_fmap, Hlen. lia.
Qed.
End FileSize.

Lemma label_file_size_witness :
  exists fs' bytes,
    eval_step Z.gtb (Some "out"%string) Sample.two_scenes Sample.two_scenes_outputs
      Sample.out_dirs = Ok fs' /\
    fs' !! ["out"; "08"; "000123.label"]%string = Some (Os.File bytes) /\
    length bytes = 16%nat.
Proof.
  assert (Hpos : Forall (fun c => 0 <= Torch.cb c) (Torch.C (inverse_map Sample.two_scenes))).
  { repeat constructor; discriminate. }
  destruct (label_file_size Z.gtb _ _ _ _ _ Hpos sample_step)
    as (path & bytes & Hpath & Hfile & Hlen & _).
  injection Hpath as <-.
  eexists _, bytes. split; [exact sample_step|]. split; [exact Hfile | exact Hlen].
Defined.

(** ** The words of the label file *)

Lemma argmax_row_nonneg {score} (gtb : score -> score -> bool) row cls :
  Torch.argmax_row gtb row = Ok cls -> 0 <= cls.
Proof. destruct row; [discriminate|]. intros [= <-]. lia. Qed.

Section Words.
Context {feat score : Type} (gtb : score -> score -> bool).
Import Torch.

Lemma map_outputs_nonneg (fd : FeedDict feat) (outputs : list (list score)) o t :
  map_outputs gtb fd outputs = Ok (o, t) -> Forall (fun cls => 0 <= cls) o.
Proof.
  intros (n & ms & _ & _ & Hms & -> & _)%map_outputs_Ok.
  apply Forall_concat. apply Forall_fmap.
  induction Hms as [|idx [o' t'] idxs ms Hstep _ IH]; constructor; [|exact IH].
  apply scene_step_Ok in Hstep as (_ & _ & _ & _ & Hall). simpl.
  induction Hall as [|i cls ? ? (row & _ & Hcls) _ IH']; constructor; [|exact IH'].
  eapply argmax_row_nonneg. exact Hcls.
Qed.

(** The file a step writes holds the cells of [pred_eval], and reading
    it back gives them. *)
Lemma eval_step_words sd (fd : FeedDict feat) (outputs : list (list score)) fs fs' :
  eval_step gtb sd fd outputs fs = Ok fs' ->
  exists o t path,
    map_outputs gtb fd outputs = Ok (o, t) /\
    output_file_name sd fd = Ok path /\
    fs' !! Os.resolve path = Some (Os.File (Np.tobytes (pred_eval o))) /\
    Np.frombytes (Np.tobytes (pred_eval o)) = pred_eval o.
Proof.
  intros ([o t] & path & Hmap & Hpath & ->)%eval_step_Ok.
  exists o, t, path. split; [exact Hmap|]. split; [exact Hpath|].
  cbn [fst]. rewrite astype_pred_eval. split; [apply lookup_insert_eq|].
  apply frombytes_tobytes. rewrite pred_eval_u32. apply Forall_fmap, Forall_true.
  intros cls. apply u32_range.
Qed.

(** C2.  Every word of a label file a step writes is
    [semantic | (instance << 16)], where [semantic] is the predicted
    class of the point as a [uint32] and [instance] the entry of the
    zero array for the point; it is computed as [sem + (ins << 16)] in
    [uint32] arithmetic. *)
Theorem written_words_packed sd (fd : FeedDict feat) (outputs : list (list score)) fs fs' :
  eval_step gtb sd fd outputs fs = Ok fs' ->
  exists o t path words,
    map_outputs gtb fd outputs = Ok (o, t) /\
    output_file_name sd fd = Ok path /\
    fs' !! Os.resolve path = Some (Os.File (Np.tobytes words)) /\
    Np.frombytes (Np.tobytes words) = words /\
    Forall2 (fun cls w =>
               let semantic := Np.u32 cls in
               let instance := Np.u32 0 in
               w = encode semantic instance /\
               w = Spec.label semantic instance /\
               0 <= w < 2 ^ 32) o words.
Proof.
  intros (o & t & path & Hmap & Hpath & Hfile & Hread)%eval_step_words.
  exists o, t, path, (pred_eval o). repeat (split; [assumption|]).
  rewrite pred_eval_cells. apply Forall2_fmap_r, Forall_Forall2_diag, Forall_true.
  intros cls. cbv zeta. split; [reflexivity|]. rewrite encode_zero. split.
  - unfold Spec.label. change (Z.shiftl (Np.u32 0) 16) with 0.
    rewrite Z.lor_0_r. reflexivity.
  - apply u32_range.
Qed.

(** C8, amended.  Every word of a label file a step writes is the
    predicted class of its point as a [uint32], the zero instance label
    adding nothing: it is the class itself when the class is below
    [2 ^ 32]; and its upper 16 bits are zero exactly when it is below
    [2 ^ 16], so for every class below [2 ^ 16]. *)
Theorem written_words_class sd (fd : FeedDict feat) (outputs : list (list score)) fs fs' :
  eval_step gtb sd fd outputs fs = Ok fs' ->
  exists o t path words,
    map_outputs gtb fd outputs = Ok (o, t) /\
    output_file_name sd fd = Ok path /\
    fs' !! Os.resolve path = Some (Os.File (Np.tobytes words)) /\
    Np.frombytes (Np.tobytes words) = words /\
    Np.zeros_like (Np.astype_uint32 o) = replicate (length o) 0 /\
    Forall2 (fun cls w =>
               0 <= cls /\ w = Np.u32 cls /\
               (cls < 2 ^ 32 -> w = cls) /\
               (Z.shiftr w 16 = 0 <-> w < 2 ^ 16) /\
               (cls < 2 ^ 16 -> w = cls /\ Z.shiftr w 16 = 0)) o words.
Proof.
  intros (o & t & path & Hmap & Hpath & Hfile & Hread)%eval_step_words.
  exists o, t, path, (pred_eval o). repeat (split; [assumption|]).
  split.
  { unfold Np.zeros_like, Np.astype_uint32. clear.
    induction o as [|x o IH]; [reflexivity|]. simpl. f_equal. exact IH. }
  rewrite pred_eval_u32. apply Forall2_fmap_r, Forall_Forall2_diag.
  eapply Forall_impl; [eapply map_outputs_nonneg; exact Hmap|].
  intros cls Hcls. cbv beta in Hcls |- *. split; [exact Hcls|]. split; [reflexivity|].
  pose proof (u32_range cls) as Hw.
  assert (Hshift : Z.shiftr (Np.u32 cls) 16 = 0 <-> Np.u32 cls < 2 ^ 16).
  { rewrite Z.shiftr_div_pow2 by lia. rewrite Z.div_small_iff by lia.
    split; [intros [H|H]; lia | intros H; left; lia]. }
  split; [intros H; apply u32_small; lia|]. split; [exact Hshift|].
  intros H. rewrite u32_small in Hshift |- * by lia. split; [reflexivity|].
  apply Hshift. exact H.
Qed.
End Words.

Lemma written_words_class_witness :
  exists fs' words,
    eval_step Z.gtb (Some "out"%string) Sample.two_scenes Sample.two_scenes_outputs
      Sample.out_dirs = Ok fs' /\
    fs' !! ["out"; "08"; "000123.label"]%string = Some (Os.File (Np.tobytes words)) /\
    Forall2 (fun cls w => w = Np.u32 cls) [2; 1; 2; 0] words.
Proof.
  destruct (written_words_class Z.gtb _ _ _ _ _ sample_step)
    as (o & t & path & words & Hmap & Hpath & Hfile & _ & _ & Hall).
  injection Hpath as <-. injection Hmap as <- _.
  eexists _, words. split; [exact sample_step|]. split; [exact Hfile|].
  eapply Forall2_impl; [exact Hall|].
  intros cls w (_ & H & _). exact H.
Defined.

Lemma written_words_packed_witness :
  exists fs' words,
    eval_step Z.gtb (Some "out"%string) Sample.two_scenes Sample.two_scenes_outputs
      Sample.out_dirs = Ok fs' /\
    fs' !! ["out"; "08"; "000123.label"]%string = Some (Os.File (Np.tobytes words)) /\
    Forall2 (fun cls w => w = Spec.label (Np.u32 cls) (Np.u32 0)) [2; 1; 2; 0] words.
Proof.
  destruct (written_words_packed Z.gtb _ _ _ _ _ sample_step)
    as (o & t & path & words & Hmap & Hpath & Hfile & _ & Hall).
  injection Hpath as <-. injection Hmap as <- _.
  eexists _, words. split; [exact sample_step|]. split; [exact Hfile|].
  eapply Forall2_impl; [exact Hall|].
  intros cls w (_ & H & _). exact H.
Defined.

(** C8 as stated fails for a model with more than [2 ^ 16] classes: the
    word written for class [2 ^ 16] is [65536], the bytes 0, 0, 1, 0, and
    its upper 16 bits are 1. *)
Lemma written_words_counterexample :
  exists fs',
    eval_step Z.gtb (Some "out"%string) Sample.one_point [Sample.wide_row] Sample.out_dirs
      = Ok fs' /\
    fs' !! ["out"; "08"; "000123.label"]%string = Some (Os.File [0; 0; 1; 0]) /\
    Np.frombytes [0; 0; 1; 0] = [65536] /\
    Z.shiftr 65536 16 = 1 /\ Z.shiftr 65536 16 <> 0.
Proof.
  eexists. split.
  - apply (eval_step_run Z.gtb (Some "out"%string) Sample.one_point [Sample.wide_row]
             Sample.out_dirs ([65536], [0]) "out/08/000123.label").
    + vm_compute. reflexivity.
    + vm_compute. reflexivity.
    + discriminate.
    + vm_compute. reflexivity.
    + vm_compute. discriminate.
  - split; [apply lookup_insert_eq|]. split; [reflexivity|]. split; [reflexivity | discriminate].
Qed.

(** ** The loop over the batches *)

Section Batches.
Context {feat score : Type} (gtb : score -> score -> bool).

(** The loop ends well exactly when every step does, each from the file
    system the one before left. *)
Lemma eval_loop_cons sd model (fd : FeedDict feat) batches fs fs' :
  eval_loop gtb sd model (fd :: batches) fs = (fs', Ok ()) <->
  exists fs1,
    eval_step gtb sd fd (model (lidar fd)) fs = Ok fs1 /\
    eval_loop gtb sd model batches fs1 = (fs', Ok ()).
Proof.
  cbn [eval_loop]. destruct (eval_step gtb sd fd (model (lidar fd)) fs) as [fs1|o e]; split.
  - intros H. exists fs1. split; [reflexivity | exact H].
  - intros (fs2 & [= <-] & H). exact H.
  - discriminate.
  - intros (fs2 & [=] & _).
Qed.
End Batches.

(** ** The arg-max on integer scores *)

Section ArgmaxZ.
Import Torch.

(** The scan keeps the first position of the largest score seen. *)
Lemma argmax_from_first_max (pre row : list Z) (best_i : nat) (best : Z) :
  pre !! best_i = Some best ->
  Forall (fun x => x <= best) pre ->
  (forall j x, (j < best_i)%nat -> pre !! j = Some x -> x < best) ->
  exists m,
    (pre ++ row) !! argmax_from Z.gtb best_i best (length pre) row = Some m /\
    Forall (fun x => x <= m) (pre ++ row) /\
    (forall j x, (j < argmax_from Z.gtb best_i best (length pre) row)%nat ->
       (pre ++ row) !! j = Some x -> x < m).
Proof.
  revert pre best_i best. induction row as [|x row IH]; intros pre best_i best Hb Hle Hfirst.
  - rewrite app_nil_r. simpl. eauto.
  - cbn [argmax_from]. replace (pre ++ x :: row) with ((pre ++ [x]) ++ row)
      by (rewrite <- app_assoc; reflexivity).
    replace (S (length pre)) with (length (pre ++ [x])) by (rewrite length_app; simpl; lia).
    destruct (Z.gtb_spec x best) as [Hgt|Hngt].
    + apply IH.
      * rewrite lookup_app_r by lia. rewrite Nat.sub_diag. reflexivity.
      * apply Forall_app. split; [|repeat constructor; lia].
        eapply Forall_impl; [exact Hle|]. intros y Hy. simpl in Hy. lia.
      * intros j y Hj Hy. rewrite lookup_app_l in Hy by exact Hj.
        rewrite Forall_forall in Hle. apply list_elem_of_lookup_2 in Hy.
        specialize (Hle y Hy). simpl in Hle. lia.
    + apply lookup_lt_Some in Hb as Hlt. apply IH.
      * rewrite lookup_app_l by exact Hlt. exact Hb.
      * apply Forall_app. split; [exact Hle | repeat constructor; lia].
      * intros j y Hj Hy. rewrite lookup_app_l in Hy by lia. eapply Hfirst; eassumption.
Qed.

(** [argmax_row] on integers: the position it returns holds the largest
    score of the row, and no position before it does. *)
Lemma argmax_row_first_max (row : list Z) (i : Z) :
  argmax_row Z.gtb row = Ok i ->
  0 <= i < Z.of_nat (length row) /\
  exists m,
    row !! Z.to_nat i = Some m /\
    Forall (fun x => x <= m) row /\
    (forall j x, (j < Z.to_nat i)%nat -> row !! j = Some x -> x < m).
Proof.
  destruct row as [|x row]; [discriminate|]. intros [= <-].
  destruct (argmax_from_first_max [x] row 0 x) as (m & Hm & Hle & Hfirst).
  - reflexivity.
  - repeat constructor. lia.
  - intros j y Hj. lia.
  - simpl length in Hm, Hfirst. simpl app in Hm, Hle, Hfirst.
    rewrite Nat2Z.id. split.
    + apply lookup_lt_Some in Hm. simpl length in Hm |- *. lia.
    + exists m. auto.
Qed.
End ArgmaxZ.

(** ** A scan of a sequence without output directory *)

Lemma label_path_resolve (s sequence file : string) :
  Os.entry_name sequence -> Os.entry_name file ->
  Os.resolve ((s +:+ "/") +:+ sequence +:+ "/" +:+ file) = Os.resolve s ++ [sequence; file].
Proof.
  intros Hseq Hfile.
  replace ((s +:+ "/") +:+ sequence +:+ "/" +:+ file)
    with ((((s +:+ "/") +:+ sequence) +:+ "/") +:+ file)
    by (rewrite !string_app_assoc; reflexivity).
  rewrite resolve_entry by exact Hfile. rewrite resolve_entry by exact Hseq.
  rewrite <- app_assoc. reflexivity.
Qed.

Section MissingDirectory.
Context {feat score : Type} (gtb : score -> score -> bool).

(** X11.  For a [--save-dir] without a component [..]: after the
    set-up, the step for a scan of a sequence other than [00] to [10]
    whose directory was not there before fails with [FileNotFoundError]:
    nothing has created the directory of its label file. *)
Lemma unlisted_sequence_fails (args : Args) (s : string) (fs : Os.fsys)
    (fd : FeedDict feat) (outputs : list (list score)) mapped
    (first : string) (rest pre : list string) (sequence mid base : string) :
  save_dir args = Some s ->
  ".."%string ∉ Os.resolve s ->
  (setup_dirs args fs).2 = Ok () ->
  Os.entry_name sequence -> sequence ∉ sequence_names ->
  Os.node_at fs (Os.resolve s ++ [sequence]) = None ->
  file_name fd = first :: rest ->
  Py.split "/" first = pre ++ [sequence; mid; base] ->
  Os.entry_name (Py.replace ".bin" ".label" base) ->
  map_outputs gtb fd outputs = Ok mapped ->
  eval_step gtb (Some s) fd outputs (setup_dirs args fs).1 = Err Library FileNotFoundError.
Proof.
  intros Hsd _ Hok Hseq Hnot Hnone Hfile Hsplit Hbase Hmap.
  pose proof (setup_dirs_eleven_frame args fs s Hsd Hok sequence Hseq Hnot) as Hsame.
  unfold eval_step. rewrite Hmap. cbn [mbind result_bind].
  rewrite (output_file_name_replace s fd first rest pre sequence mid base Hfile Hsplit).
  cbn [mbind result_bind]. unfold Os.write_file.
  rewrite bool_decide_false.
  2:{ intros H. apply (f_equal String.length) in H.
      rewrite !string_length_app in H. simpl in H. lia. }
  rewrite label_path_resolve by assumption.
  replace (removelast (Os.resolve s ++ [sequence; Py.replace ".bin" ".label" base]))
    with (Os.resolve s ++ [sequence]).
  2:{ change [sequence; Py.replace ".bin" ".label" base]
        with ([sequence] ++ [Py.replace ".bin" ".label" base]).
      rewrite app_assoc, removelast_last. reflexivity. }
  rewrite Hsame, Hnone. reflexivity.
Qed.
End MissingDirectory.

(** * Further properties of the script *)

(** ** The inputs of the model (lines 116-121) *)

Section InputsProperties.
Import Inputs.
Context {T : Type}.
Implicit Types (items : list (string * value T)) (m : gmap string (value T)).

Lemma cuda_Ok (x v : value T) :
  cuda x = Ok v <-> exists d t, x = Tensor d t /\ v = Tensor Cuda t.
Proof.
  destruct x as [d t|l]; simpl; split.
  - intros [= <-]. eauto.
  - intros (d' & t' & [= <- <-] & ->). reflexivity.
  - discriminate.
  - intros (d & t & [=] & _).
Qed.

(** The dict the loop returns, key by key: the tensor of the batch under
    this key, moved to the GPU, when the key has no [name] in it; what
    the dict held before, when the loop did not touch the key. *)
Lemma inputs_loop_lookup items m0 m key v :
  NoDup items.*1 ->
  inputs_loop items m0 = Ok m ->
  m !! key = Some v <->
    (Py.contains "name" key = false /\
     exists d t, (key, Tensor d t) ∈ items /\ v = Tensor Cuda t) \/
    ((key ∉ items.*1 \/ Py.contains "name" key = true) /\ m0 !! key = Some v).
Proof.
  revert m0. induction items as [|[k x] items IH]; intros m0 Hnd Hrun.
  - injection Hrun as <-. split.
    + intros H. right. split; [left; apply not_elem_of_nil | exact H].
    + intros [(_ & d & t & Hin & _)|[_ H]]; [inversion Hin | exact H].
  - apply NoDup_cons in Hnd as [Hk Hnd]. cbn [inputs_loop] in Hrun.
    destruct (Py.contains "name" k) eqn:Hname; cbn [negb] in Hrun.
    + rewrite (IH _ Hnd Hrun). clear IH Hrun. cbn [fmap list_fmap fst].
      split.
      * intros [(Hc & d & t & Hin & ->)|[Hnot Hm0]].
        -- left. split; [exact Hc|]. exists d, t. split; [right; exact Hin | reflexivity].
        -- right. split; [|exact Hm0].
           destruct Hnot as [Hnot|Hc]; [|right; exact Hc].
           destruct (decide (key = k)) as [->|Hne]; [right; exact Hname|].
           left. intros [->|Hin]%elem_of_cons; [contradiction | exact (Hnot Hin)].
      * intros [(Hc & d & t & Hin & ->)|[Hnot Hm0]].
        -- apply elem_of_cons in Hin as [[= -> <-]|Hin]; [congruence|].
           left. split; [exact Hc|]. eauto.
        -- right. split; [|exact Hm0].
           destruct Hnot as [Hnot|Hc]; [|right; exact Hc].
           left. intros Hin. apply Hnot. right. exact Hin.
    + apply bind_Ok in Hrun as (v' & Hcuda & Hrun).
      apply cuda_Ok in Hcuda as (d0 & t0 & -> & ->).
      rewrite (IH _ Hnd Hrun). clear IH Hrun. cbn [fmap list_fmap fst].
      destruct (decide (key = k)) as [->|Hne].
      * rewrite lookup_insert_eq. split.
        -- intros [(_ & d & t & Hin & _)|[_ [= <-]]].
           ++ exfalso. apply Hk. apply list_elem_of_fmap. exists (k, Tensor d t). auto.
           ++ left. split; [exact Hname|]. exists d0, t0. split; [left | reflexivity].
        -- intros [(_ & d & t & Hin & ->)|[[Hnot|Hc] _]].
           ++ apply elem_of_cons in Hin as [[= <- <-]|Hin].
              ** right. split; [left; exact Hk | reflexivity].
              ** exfalso. apply Hk. apply list_elem_of_fmap. exists (k, Tensor d t). auto.
           ++ exfalso. apply Hnot. left.
           ++ congruence.
      * rewrite lookup_insert_ne by congruence. split.
        -- intros [(Hc & d & t & Hin & ->)|[Hnot Hm0]].
           ++ left. split; [exact Hc|]. exists d, t. split; [right; exact Hin | reflexivity].
           ++ right. split; [|exact Hm0].
              destruct Hnot as [Hnot|Hc]; [|right; exact Hc].
              left. intros [->|Hin]%elem_of_cons; [contradiction | exact (Hnot Hin)].
        -- intros [(Hc & d & t & Hin & ->)|[Hnot Hm0]].
           ++ apply elem_of_cons in Hin as [[= -> _]|Hin]; [contradiction|].
              left. split; [exact Hc|]. eauto.
           ++ right. split; [|exact Hm0].
              destruct Hnot as [Hnot|Hc]; [|right; exact Hc].
              left. intros Hin. apply Hnot. right. exact Hin.
Qed.

(** The loop fails exactly on a list of names under a key without
    [name], and then with [AttributeError]. *)
Lemma inputs_loop_result items m0 :
  (exists m, inputs_loop items m0 = Ok m) /\
    (forall key l, (key, Names l) ∈ items -> Py.contains "name" key = true) \/
  inputs_loop items m0 = Err Library AttributeError /\
    (exists key l, (key, Names l) ∈ items /\ Py.contains "name" key = false).
Proof.
  revert m0. induction items as [|[k x] items IH]; intros m0.
  - left. split; [eexists; reflexivity|]. intros key l Hin. inversion Hin.
  - cbn [inputs_loop]. destruct (Py.contains "name" k) eqn:Hname; cbn [negb].
    + destruct (IH m0) as [[Hok Hall]|[Herr (key & l & Hin & Hc)]].
      * left. split; [exact Hok|]. intros key l [[= -> _]|Hin]%elem_of_cons;
          [exact Hname | eapply Hall; exact Hin].
      * right. split; [exact Herr|]. exists key, l. split; [right; exact Hin | exact Hc].
    + destruct x as [d t|l]; cbn [cuda mbind result_bind].
      * destruct (IH (<[k := Tensor Cuda t]> m0)) as [[Hok Hall]|[Herr (key & l & Hin & Hc)]].
        -- left. split; [exact Hok|]. intros key l [[=]|Hin]%elem_of_cons.
           eapply Hall; exact Hin.
        -- right. split; [exact Herr|]. exists key, l. split; [right; exact Hin | exact Hc].
      * right. split; [reflexivity|]. exists k, l. split; [left | exact Hname].
Qed.
End InputsProperties.

Section ModelInputs.
Import Inputs.
Context {T : Type}.

(** X1.  The dict [_inputs] built in lines 116-119 holds, under a key,
    exactly the tensor the batch has under this key, moved to the GPU,
    and only for the keys without [name] in them: no entry whose key
    contains [name], [file_name] among them, is in [_inputs]. *)
Theorem inputs_on_gpu (feed_dict : list (string * value T)) (_inputs : gmap string (value T)) :
  NoDup feed_dict.*1 ->
  inputs_loop feed_dict ∅ = Ok _inputs ->
  (forall key v,
     _inputs !! key = Some v <->
     Py.contains "name" key = false /\
     exists d t, (key, Tensor d t) ∈ feed_dict /\ v = Tensor Cuda t) /\
  (forall key, Py.contains "name" key = true -> _inputs !! key = None) /\
  _inputs !! "file_name"%string = None.
Proof.
  intros Hnd Hrun.
  assert (Hlookup : forall key v,
             _inputs !! key = Some v <->
             Py.contains "name" key = false /\
             exists d t, (key, Tensor d t) ∈ feed_dict /\ v = Tensor Cuda t).
  { intros key v. rewrite (inputs_loop_lookup feed_dict ∅ _inputs key v Hnd Hrun).
    split; [|intros H; left; exact H].
    intros [H|[_ H]]; [exact H|]. rewrite lookup_empty in H. discriminate H. }
  assert (Hnone : forall key, Py.contains "name" key = true -> _inputs !! key = None).
  { intros key Hc. destruct (_inputs !! key) as [v|] eqn:E; [|reflexivity].
    apply Hlookup in E as [E _]. congruence. }
  split; [exact Hlookup|]. split; [exact Hnone|]. apply Hnone. reflexivity.
Qed.

(** X2.  Lines 116-121 fail with [AttributeError] exactly when the batch
    has a list of names under a key without [name] in it; otherwise they
    give the tensor under [lidar], moved to the GPU, and fail with
    [KeyError] when the batch has no key [lidar]. *)
Theorem prepare_inputs_result (feed_dict : list (string * value T)) :
  NoDup feed_dict.*1 ->
  (prepare_inputs feed_dict = Err Library AttributeError <->
     exists key l, (key, Names l) ∈ feed_dict /\ Py.contains "name" key = false) /\
  ((forall key l, (key, Names l) ∈ feed_dict -> Py.contains "name" key = true) ->
   (forall d t, ("lidar"%string, Tensor d t) ∈ feed_dict ->
      prepare_inputs feed_dict = Ok (Tensor Cuda t)) /\
   ("lidar"%string ∉ feed_dict.*1 -> prepare_inputs feed_dict = Err Library KeyError)).
Proof.
  intros Hnd. unfold prepare_inputs.
  destruct (inputs_loop_result feed_dict ∅) as [[[m Hm] Hall]|[Herr Hbad]].
  - rewrite Hm. cbn [mbind result_bind].
    pose proof (fun key v => inputs_loop_lookup feed_dict ∅ m key v Hnd Hm) as Hlookup.
    split.
    + split.
      * intros H. destruct (m !! "lidar"%string); discriminate H.
      * intros (key & l & Hin & Hc). rewrite (Hall key l Hin) in Hc. discriminate Hc.
    + intros _. split.
      * intros d t Hin.
        assert (m !! "lidar"%string = Some (Tensor Cuda t)) as ->; [|reflexivity].
        apply Hlookup. left. split; [reflexivity|]. eauto.
      * intros Hno. destruct (m !! "lidar"%string) as [v|] eqn:E; [|reflexivity].
        apply Hlookup in E as [(_ & d & t & Hin & _)|[_ E]].
        -- exfalso. apply Hno. apply list_elem_of_fmap. exists ("lidar"%string, Tensor d t). auto.
        -- rewrite lookup_empty in E. discriminate E.
  - rewrite Herr. cbn [mbind result_bind]. split.
    + split; [intros _; exact Hbad | reflexivity].
    + intros Hall. destruct Hbad as (key & l & Hin & Hc).
      rewrite (Hall key l Hin) in Hc. discriminate Hc.
Qed.
End ModelInputs.

Lemma inputs_on_gpu_witness :
  exists _inputs,
    Inputs.inputs_loop
      [("lidar"%string, Inputs.Tensor Inputs.Cpu 1%nat);
       ("targets"%string, Inputs.Tensor Inputs.Cpu 2%nat);
       ("file_name"%string, Inputs.Names ["/data/sequences/08/velodyne/000123.bin"%string])]
      ∅ = Ok _inputs /\
    _inputs !! "targets"%string = Some (Inputs.Tensor Inputs.Cuda 2%nat) /\
    _inputs !! "file_name"%string = None.
Proof.
  eexists. split; [reflexivity|].
  assert (Hnd : NoDup ["lidar"; "targets"; "file_name"]%string).
  { repeat (constructor; [rewrite ?elem_of_cons, elem_of_nil; intros H;
      repeat (destruct H as [H|H]; [discriminate H|]); exact H|]). constructor. }
  destruct (inputs_on_gpu
              [("lidar"%string, Inputs.Tensor Inputs.Cpu 1%nat);
               ("targets"%string, Inputs.Tensor Inputs.Cpu 2%nat);
               ("file_name"%string,
                Inputs.Names ["/data/sequences/08/velodyne/000123.bin"%string])]
              _ Hnd eq_refl) as (Hlookup & _ & Hfile).
  split; [|exact Hfile].
  apply Hlookup. split; [reflexivity|]. exists Inputs.Cpu, 2%nat.
  split; [right; left | reflexivity].
Defined.

Lemma prepare_inputs_result_witness :
  Inputs.prepare_inputs
    [("lidar"%string, Inputs.Tensor Inputs.Cpu 1%nat);
     ("file_name"%string, Inputs.Names ["/data/sequences/08/velodyne/000123.bin"%string])]
  = Ok (Inputs.Tensor Inputs.Cuda 1%nat).
Proof.
  assert (Hnd : NoDup ["lidar"; "file_name"]%string).
  { repeat (constructor; [rewrite ?elem_of_cons, elem_of_nil; intros H;
      repeat (destruct H as [H|H]; [discriminate H|]); exact H|]). constructor. }
  refine (proj1 (proj2 (prepare_inputs_result
            [("lidar"%string, Inputs.Tensor Inputs.Cpu 1%nat);
             ("file_name"%string,
              Inputs.Names ["/data/sequences/08/velodyne/000123.bin"%string])] Hnd) _)
            Inputs.Cpu 1%nat _).
  - intros key l Hin. apply elem_of_cons in Hin as [[=]|Hin].
    apply elem_of_cons in Hin as [[= -> _]|Hin]; [reflexivity | inversion Hin].
  - left.
Defined.

(** ** The label files in the file system (lines 115-148) *)

Lemma node_at_write fs q n r :
  Os.node_at fs q <> Some Os.Dir ->
  Os.node_at (<[q := n]> fs) r = if decide (r = q) then Some n else Os.node_at fs r.
Proof.
  unfold Os.node_at. intros Hq.
  destruct (bool_decide (q = [] \/ q = [""%string])) eqn:Himp; [contradiction|].
  destruct (decide (r = q)) as [->|Hne].
  - rewrite Himp. apply lookup_insert_eq.
  - destruct (bool_decide (r = [] \/ r = [""%string])); [reflexivity|].
    apply lookup_insert_ne. congruence.
Qed.

(** What [write_file] needs and does when it returns. *)
Lemma write_file_writes p bs fs fs' :
  Os.write_file p bs fs = Ok fs' ->
  Os.node_at fs (removelast (Os.resolve p)) = Some Os.Dir /\
  Os.node_at fs (Os.resolve p) <> Some Os.Dir /\
  forall r, Os.node_at fs' r =
            if decide (r = Os.resolve p) then Some (Os.File bs) else Os.node_at fs r.
Proof.
  unfold Os.write_file. case_bool_decide as Hp; [discriminate|].
  destruct (Os.node_at fs (removelast _)) as [[|c]|] eqn:Hdir; try discriminate.
  intros H. split; [reflexivity|].
  assert (Hnot : Os.node_at fs (Os.resolve p) <> Some Os.Dir).
  { destruct (Os.node_at fs (Os.resolve p)) as [[|c]|]; [discriminate H | |]; discriminate. }
  split; [exact Hnot|].
  assert (fs' = <[Os.resolve p := Os.File bs]> fs) as ->.
  { destruct (Os.node_at fs (Os.resolve p)) as [[|c]|]; [discriminate H | |]; congruence. }
  intros r. apply node_at_write. exact Hnot.
Qed.

Section LabelFiles.
Context {feat score : Type} (gtb : score -> score -> bool).
Implicit Types (fd : FeedDict feat) (fs : Os.fsys).

(** A step that ends well changes the file system at the path of its
    label file only, where it puts a file in the place of a file or of
    nothing. *)
Lemma eval_step_writes sd fd (outputs : list (list score)) fs fs' :
  eval_step gtb sd fd outputs fs = Ok fs' ->
  exists path bytes,
    output_file_name sd fd = Ok path /\
    Os.node_at fs (Os.resolve path) <> Some Os.Dir /\
    forall r, Os.node_at fs' r =
              if decide (r = Os.resolve path) then Some (Os.File bytes) else Os.node_at fs r.
Proof.
  unfold eval_step. intros H.
  apply bind_Ok in H as (mapped & _ & H). apply bind_Ok in H as (path & Hpath & H).
  apply write_file_writes in H as (_ & Hnot & Hfs').
  exists path, (Np.tobytes (Np.astype_uint32 (pred_eval mapped.1))). auto.
Qed.


(** Whatever the loop changes is the label file of one of its batches. *)
Lemma eval_loop_changes sd model (batches : list (FeedDict feat)) fs r :
  Os.node_at (eval_loop gtb sd model batches fs).1 r <> Os.node_at fs r ->
  Os.node_at fs r <> Some Os.Dir /\
  exists fd path bytes,
    fd ∈ batches /\ output_file_name sd fd = Ok path /\ r = Os.resolve path /\
    Os.node_at (eval_loop gtb sd model batches fs).1 r = Some (Os.File bytes).
Proof.
  revert fs. induction batches as [|fd batches IH]; intros fs; [intros []; reflexivity|].
  cbn [eval_loop].
  destruct (eval_step gtb sd fd (model (lidar fd)) fs) as [fs1|o e] eqn:Hstep;
    [|intros []; reflexivity].
  apply eval_step_writes in Hstep as (path & bytes & Hpath & Hnot & Hfs1).
  intros Hne.
  destruct (decide (Os.node_at (eval_loop gtb sd model batches fs1).1 r = Os.node_at fs1 r))
    as [Heq|Hdiff].
  - rewrite Heq in Hne |- *. rewrite Hfs1 in Hne |- *.
    destruct (decide (r = Os.resolve path)) as [->|]; [|contradiction].
    split; [exact Hnot|]. exists fd, path, bytes.
    split; [left|]. auto.
  - destruct (IH fs1 Hdiff) as (Hnd & fd' & path' & bytes' & Hin & Hpath' & -> & Hfile).
    split.
    + rewrite Hfs1 in Hnd. destruct (decide (Os.resolve path' = Os.resolve path)) as [Heq|];
        [rewrite Heq; exact Hnot | exact Hnd].
    + exists fd', path', bytes'. split; [right; exact Hin|]. auto.
Qed.

(** X3.  The loop of lines 115-148 changes the file system only at the
    output paths of its batches, where it leaves a file: it creates no
    directory, turns no directory into a file and removes nothing,
    whether it ends well or fails on the way. *)
Theorem eval_loop_only_label_files sd model (batches : list (FeedDict feat)) fs :
  (forall r, Os.node_at (eval_loop gtb sd model batches fs).1 r = Some Os.Dir <->
             Os.node_at fs r = Some Os.Dir) /\
  (forall r, is_Some (Os.node_at fs r) ->
             is_Some (Os.node_at (eval_loop gtb sd model batches fs).1 r)) /\
  (forall r, Os.node_at (eval_loop gtb sd model batches fs).1 r <> Os.node_at fs r ->
     exists fd path bytes,
       fd ∈ batches /\ output_file_name sd fd = Ok path /\ r = Os.resolve path /\
       Os.node_at (eval_loop gtb sd model batches fs).1 r = Some (Os.File bytes)).
Proof.
  pose proof (eval_loop_changes sd model batches fs) as Hch.
  refine (conj _ (conj _ _)).
  - intros r.
    destruct (decide (Os.node_at (eval_loop gtb sd model batches fs).1 r = Os.node_at fs r))
      as [->|Hdiff]; [reflexivity|].
    destruct (Hch r Hdiff) as (Hnd & fd & path & bytes & _ & _ & _ & Hfile).
    rewrite Hfile. split; [discriminate | intros H; contradiction].
  - intros r Hsome.
    destruct (decide (Os.node_at (eval_loop gtb sd model batches fs).1 r = Os.node_at fs r))
      as [->|Hdiff]; [exact Hsome|].
    destruct (Hch r Hdiff) as (_ & fd & path & bytes & _ & _ & _ & Hfile).
    rewrite Hfile. eauto.
  - intros r Hdiff. destruct (Hch r Hdiff) as (_ & H). exact H.
Qed.
End LabelFiles.

(** ** The data loaders, split by split (lines 60-74) *)

Section Splits.
Context {Dataset : Type} (dist_size dist_rank : Z) (configs : Configs).

Lemma dataflow_loop_other (dataset : list (string * Dataset)) dataflow split :
  split ∉ dataset.*1 ->
  dataflow_loop dist_size dist_rank configs dataset dataflow !! split = dataflow !! split.
Proof.
  revert dataflow. induction dataset as [|[s ds] dataset IH]; intros dataflow Hnot;
    [reflexivity|].
  cbn [dataflow_loop]. rewrite IH.
  - apply lookup_insert_ne. intros ->. apply Hnot. left.
  - intros Hin. apply Hnot. right. exact Hin.
Qed.

(** X5.  With the splits of the data set under different keys, [dataflow]
    has under the key of each split the loader built on the data set of
    this split, and nothing under any other key. *)
Theorem dataflow_splits (dataset : list (string * Dataset)) :
  NoDup dataset.*1 ->
  (forall split ds, (split, ds) ∈ dataset ->
     exists dl,
       make_dataflow dist_size dist_rank configs dataset !! split = Some dl /\
       dl = make_loader dist_size dist_rank configs split ds /\
       loader_dataset dl = ds /\ sampler_dataset (sampler dl) = ds) /\
  (forall split, split ∉ dataset.*1 ->
     make_dataflow dist_size dist_rank configs dataset !! split = None).
Proof.
  intros Hnd. split.
  - intros split ds Hin. eexists. split; [|repeat split].
    unfold make_dataflow. generalize (∅ : gmap string (DataLoader Dataset)).
    induction dataset as [|[s d] dataset IH]; intros dataflow; [inversion Hin|].
    apply NoDup_cons in Hnd as [Hs Hnd]. cbn [dataflow_loop].
    apply elem_of_cons in Hin as [[= <- <-]|Hin].
    + rewrite dataflow_loop_other by exact Hs. apply lookup_insert_eq.
    + apply IH; assumption.
  - intros split Hnot. unfold make_dataflow. rewrite dataflow_loop_other by exact Hnot.
    apply lookup_empty.
Qed.
End Splits.

Lemma dataflow_splits_witness :
  make_dataflow 2 0 Sample.configs [("train"%string, 3%nat); ("test"%string, 7%nat)]
    !! "test"%string
  = Some (make_loader 2 0 Sample.configs "test" 7%nat).
Proof.
  assert (Hnd : NoDup ["train"; "test"]%string).
  { repeat (constructor; [rewrite ?elem_of_cons, elem_of_nil; intros H;
      repeat (destruct H as [H|H]; [discriminate H|]); exact H|]). constructor. }
  destruct (proj1 (dataflow_splits 2 0 Sample.configs
                     [("train"%string, 3%nat); ("test"%string, 7%nat)] Hnd)
              "test"%string 7%nat) as (dl & Hdl & -> & _).
  - right; left.
  - exact Hdl.
Defined.

(** ** What the loop leaves in the file system *)

Section LoopFiles.
Context {feat score : Type} (gtb : score -> score -> bool).

(** What is there before the loop is there after it. *)
Lemma eval_loop_keeps sd model (batches : list (FeedDict feat)) fs r :
  is_Some (Os.node_at fs r) ->
  is_Some (Os.node_at (eval_loop gtb sd model batches fs).1 r).
Proof.
  intros Hsome.
  destruct (decide (Os.node_at (eval_loop gtb sd model batches fs).1 r = Os.node_at fs r))
    as [->|Hdiff]; [exact Hsome|].
  destruct (eval_loop_changes gtb sd model batches fs r Hdiff)
    as (_ & fd & path & bytes & _ & _ & _ & Hfile).
  rewrite Hfile. eauto.
Qed.

(** When the loop ends well, the label file of every batch is there. *)
Lemma eval_loop_files sd model (batches : list (FeedDict feat)) fs fd :
  (eval_loop gtb sd model batches fs).2 = Ok () -> fd ∈ batches ->
  exists path bytes,
    output_file_name sd fd = Ok path /\
    Os.node_at (eval_loop gtb sd model batches fs).1 (Os.resolve path) = Some (Os.File bytes).
Proof.
  revert fs. induction batches as [|fd0 batches IH]; intros fs Hok Hin; [inversion Hin|].
  cbn [eval_loop] in Hok |- *.
  destruct (eval_step gtb sd fd0 (model (lidar fd0)) fs) as [fs1|o e] eqn:Hstep;
    [|discriminate Hok].
  apply elem_of_cons in Hin as [->|Hin]; [|apply IH; assumption].
  apply eval_step_writes in Hstep as (path & bytes & Hpath & _ & Hfs1).
  exists path.
  destruct (decide (Os.node_at (eval_loop gtb sd model batches fs1).1 (Os.resolve path)
                    = Os.node_at fs1 (Os.resolve path))) as [Heq|Hdiff].
  - exists bytes. split; [exact Hpath|]. rewrite Heq, Hfs1.
    rewrite decide_True by reflexivity. reflexivity.
  - destruct (eval_loop_changes gtb sd model batches fs1 _ Hdiff)
      as (_ & fd' & path' & bytes' & _ & _ & _ & Hfile).
    exists bytes'. split; [exact Hpath | exact Hfile].
Qed.

End LoopFiles.

(** ** The failures of the mapping (lines 126-139) *)

Lemma index_Err {A} (xs : list A) i o e :
  Py.index xs i = Err o e -> o = Library /\ e = IndexError.
Proof.
  unfold Py.index. repeat case_bool_decide;
    try (destruct (xs !! _); [discriminate|]); intros [= <- <-]; auto.
Qed.



Section MappingFailures.
Context {feat score : Type} (gtb : score -> score -> bool).
Import Torch.



End MappingFailures.

(** ** The order of the mapped predictions (lines 126-139) *)

Lemma select_zip {A B} (mask : list bool) (a : list A) (b : list B) :
  length a = length b ->
  Torch.select mask (zip a b) = zip (Torch.select mask a) (Torch.select mask b).
Proof.
  revert a b. induction mask as [|m mask IH]; intros [|x a] [|y b] Hlen;
    try discriminate; try reflexivity.
  injection Hlen as Hlen. cbn [zip zip_with Torch.select]. fold (zip a b).
  destruct m; [cbn [zip zip_with]; f_equal|]; apply IH; exact Hlen.
Qed.

Lemma length_select_same {A B} (mask : list bool) (a : list A) (b : list B) :
  length a = length b -> length (Torch.select mask a) = length (Torch.select mask b).
Proof.
  revert a b. induction mask as [|m mask IH]; intros [|x a] [|y b] Hlen;
    try discriminate; try reflexivity.
  injection Hlen as Hlen. cbn [Torch.select].
  destruct m; [cbn [length]; f_equal|]; apply IH; exact Hlen.
Qed.

Lemma Forall2_concat_lists {A B} (R : A -> B -> Prop) (xss : list (list A)) (yss : list (list B)) :
  Forall2 (Forall2 R) xss yss -> Forall2 R (concat xss) (concat yss).
Proof.
  induction 1 as [|xs ys xss yss H _ IH]; [constructor|].
  cbn [concat]. apply Forall2_app; assumption.
Qed.

(** A list whose keys do not decrease, all of them at least [a], begins
    with the entries of key [a]; the keys of the others are greater. *)
Lemma sorted_split {A} (key : A -> Z) (l : list A) (a : Z) :
  StronglySorted Z.le (key <$> l) -> Forall (fun p => a <= key p) l ->
  exists pre post,
    l = pre ++ post /\ Forall (fun p => key p = a) pre /\ Forall (fun p => a < key p) post.
Proof.
  induction l as [|p l IH]; intros Hs Hge.
  - exists [], []. repeat split; constructor.
  - rewrite fmap_cons in Hs. apply StronglySorted_cons in Hs as [Hle Hs].
    apply Forall_cons in Hge as [Hp Hge].
    destruct (decide (key p = a)) as [Heq|Hne].
    + destruct (IH Hs Hge) as (pre & post & -> & Hpre & Hpost).
      exists (p :: pre), post. repeat split; [constructor; assumption | exact Hpost].
    + exists [], (p :: l). repeat split; [constructor|].
      constructor; [lia|]. rewrite Forall_fmap in Hle.
      eapply Forall_impl; [exact Hle|]. intros q Hq. simpl in Hq. lia.
Qed.

Lemma filter_key_all {A} (key : A -> Z) (l : list A) (a : Z) :
  Forall (fun p => key p = a) l ->
  List.filter (fun p => bool_decide (key p = a)) l = l.
Proof.
  induction 1 as [|p l Hp _ IH]; [reflexivity|].
  cbn [List.filter]. rewrite bool_decide_true by exact Hp. f_equal. exact IH.
Qed.

Lemma filter_key_none {A} (key : A -> Z) (l : list A) (a : Z) :
  Forall (fun p => key p <> a) l ->
  List.filter (fun p => bool_decide (key p = a)) l = [].
Proof.
  induction 1 as [|p l Hp _ IH]; [reflexivity|].
  cbn [List.filter]. rewrite bool_decide_false by exact Hp. exact IH.
Qed.

(** Taking, for the keys [a], [a + 1], ... in turn, the entries with this
    key gives back a list whose keys do not decrease. *)
Lemma concat_filter_sorted {A} (key : A -> Z) (l : list A) (a k : nat) :
  StronglySorted Z.le (key <$> l) ->
  Forall (fun p => Z.of_nat a <= key p < Z.of_nat (a + k)) l ->
  concat ((fun idx => List.filter (fun p => bool_decide (key p = idx)) l)
            <$> (Z.of_nat <$> seq a k)) = l.
Proof.
  revert a l. induction k as [|k IH]; intros a l Hs Hin.
  - destruct l as [|p l]; [reflexivity|]. apply Forall_cons in Hin as [Hp _]. lia.
  - destruct (sorted_split key l (Z.of_nat a) Hs) as (pre & post & -> & Hpre & Hpost).
    { eapply Forall_impl; [exact Hin|]. intros p Hp. simpl in Hp. lia. }
    cbn [seq fmap list_fmap concat].
    rewrite List.filter_app, (filter_key_all key pre) by exact Hpre.
    rewrite (filter_key_none key post).
    2:{ eapply Forall_impl; [exact Hpost|]. intros p Hp. simpl in Hp. lia. }
    rewrite app_nil_r. f_equal.
    rewrite fmap_app in Hs. apply StronglySorted_app in Hs as (_ & _ & Hs).
    apply Forall_app in Hin as [_ Hin].
    etrans; [|apply (IH (S a) post Hs)].
    2:{ apply Forall_forall. intros p Hp. rewrite Forall_forall in Hin, Hpost.
        specialize (Hin p Hp). specialize (Hpost p Hp). simpl in Hin, Hpost. lia. }
    f_equal. apply list_fmap_ext. intros i idx Hidx.
    rewrite List.filter_app, (filter_key_none key pre); [reflexivity|].
    apply list_elem_of_lookup_2 in Hidx. apply list_elem_of_fmap in Hidx as (j & -> & Hj).
    apply elem_of_seq in Hj.
    eapply Forall_impl; [exact Hpre|]. intros p Hp. simpl in Hp. lia.
Qed.

Lemma concat_scenes {A} (cs : list Torch.coord) (xs : list A) (n : Z) :
  length cs = length xs ->
  StronglySorted Z.le (Torch.last_column cs) ->
  Forall (fun b => 0 <= b <= n) (Torch.last_column cs) ->
  concat ((fun idx => List.filter (fun p => bool_decide (Torch.cb p.1 = idx)) (zip cs xs))
            <$> Py.range (n + 1)) = zip cs xs.
Proof.
  intros Hlen Hs Hin.
  assert (Hkey : (fun p : Torch.coord * A => Torch.cb p.1) <$> zip cs xs = Torch.last_column cs).
  { unfold Torch.last_column. rewrite <- (fst_zip cs xs) at 2 by lia.
    rewrite <- list_fmap_compose. reflexivity. }
  unfold Py.range.
  apply (concat_filter_sorted (fun p : Torch.coord * A => Torch.cb p.1)).
  - rewrite Hkey. exact Hs.
  - rewrite <- Hkey in Hin. apply Forall_fmap in Hin.
    eapply Forall_impl; [exact Hin|]. intros p Hp. simpl in Hp. lia.
Qed.

Section PointOrder.
Context {feat score : Type} (gtb : score -> score -> bool).
Import Torch Points.

Lemma scene_step_points (inputs : SparseTensor feat) invs all_labels
    (outputs : list (list score)) idx o t :
  scene_step gtb inputs invs all_labels outputs idx = Ok (o, t) ->
  Forall2 (point_class gtb inputs outputs)
    (List.filter (fun p => bool_decide (cb p.1 = idx)) (zip (C invs) (F invs))) o /\
  t = (List.filter (fun p => bool_decide (cb p.1 = idx))
         (zip (C all_labels) (F all_labels))).*2.
Proof.
  intros (_ & _ & _ & -> & Hall)%scene_step_Ok.
  split; [|apply select_batch].
  rewrite (select_batch (C invs) (F invs) idx) in Hall. revert o Hall.
  induction (zip (C invs) (F invs)) as [|p l IH]; intros o Hall.
  - inversion Hall. constructor.
  - cbn [List.filter] in Hall |- *. case_bool_decide as Hp; [|apply IH, Hall].
    cbn [fmap list_fmap] in Hall.
    inversion Hall as [|? cls ? o' Hcls Hrest]; subst.
    constructor; [|apply IH, Hrest].
    destruct Hcls as (row & Hrow & Hcls). exists row. split; [exact Hrow | exact Hcls].
Qed.

Lemma map_outputs_lengths (fd : FeedDict feat) (outputs : list (list score)) o t :
  map_outputs gtb fd outputs = Ok (o, t) ->
  length (C (inverse_map fd)) = length (F (inverse_map fd)) /\
  length (C (targets_mapped fd)) = length (F (targets_mapped fd)) /\
  length (C (lidar fd)) = length outputs.
Proof.
  intros (n & ms & Hn & Hn0 & Hms & _)%map_outputs_Ok.
  destruct (Py.range (n + 1)) as [|idx idxs] eqn:Hr; [apply range_nil in Hr; lia|].
  inversion Hms as [|? [o' t'] ? ? Hstep _]; subst.
  apply scene_step_Ok in Hstep as (H1 & H2 & H3 & _). auto.
Qed.

(** X13.  For a batch whose inverse map lists its points scene after
    scene, from scene 0 on, as the collate function builds it: the
    predictions the mapping returns are in the order of the points of the
    batch, the prediction at a position being the class of the point at
    this position of the inverse map. *)
Theorem map_outputs_point_order (fd : FeedDict feat) (outputs : list (list score)) o t :
  StronglySorted Z.le (last_column (C (inverse_map fd))) ->
  Forall (fun b => 0 <= b) (last_column (C (inverse_map fd))) ->
  map_outputs gtb fd outputs = Ok (o, t) ->
  Forall2 (point_class gtb (lidar fd) outputs)
    (zip (C (inverse_map fd)) (F (inverse_map fd))) o.
Proof.
  intros Hs Hpos Hmap.
  destruct (map_outputs_lengths _ _ _ _ Hmap) as (Hlen & _ & _).
  apply map_outputs_Ok in Hmap as (n & ms & Hn & Hn0 & Hms & -> & _).
  destruct (max_greatest _ _ Hn) as [_ Hle].
  rewrite <- (concat_scenes (C (inverse_map fd)) (F (inverse_map fd)) n Hlen Hs).
  2:{ rewrite Forall_forall in Hpos, Hle |- *. intros b Hb.
      specialize (Hpos b Hb). specialize (Hle b Hb). simpl in Hle. lia. }
  apply Forall2_concat_lists. apply Forall2_fmap.
  eapply Forall2_impl; [exact Hms|]. intros idx [o' t'] Hstep.
  apply scene_step_points in Hstep as [Ho _]. exact Ho.
Qed.

(** X14.  When, moreover, the mapped targets carry the batch indices of
    the inverse map, row for row, the targets the mapping returns are
    the mapped targets of the batch as they are, and there is one
    prediction for each of them: prediction and target at a position
    belong to the same point. *)
Theorem map_outputs_targets (fd : FeedDict feat) (outputs : list (list score)) o t :
  StronglySorted Z.le (last_column (C (inverse_map fd))) ->
  Forall (fun b => 0 <= b) (last_column (C (inverse_map fd))) ->
  last_column (C (targets_mapped fd)) = last_column (C (inverse_map fd)) ->
  map_outputs gtb fd outputs = Ok (o, t) ->
  t = F (targets_mapped fd) /\ length o = length t.
Proof.
  intros Hs Hpos Hcol Hmap.
  destruct (map_outputs_lengths _ _ _ _ Hmap) as (Hlen & Hlen' & _).
  assert (Hlens : length (F (inverse_map fd)) = length (F (targets_mapped fd))).
  { rewrite <- Hlen, <- Hlen'. apply (f_equal length) in Hcol.
    unfold last_column in Hcol. rewrite !length_fmap in Hcol. lia. }
  apply map_outputs_Ok in Hmap as (n & ms & Hn & Hn0 & Hms & -> & ->).
  destruct (max_greatest _ _ Hn) as [_ Hle].
  assert (Hin : Forall (fun b => 0 <= b <= n) (last_column (C (inverse_map fd)))).
  { rewrite Forall_forall in Hpos, Hle |- *. intros b Hb.
    specialize (Hpos b Hb). specialize (Hle b Hb). simpl in Hle. lia. }
  assert (Ho : Forall2 (point_class gtb (lidar fd) outputs)
                 (zip (C (inverse_map fd)) (F (inverse_map fd))) (concat ms.*1)).
  { rewrite <- (concat_scenes (C (inverse_map fd)) (F (inverse_map fd)) n Hlen Hs Hin).
    apply Forall2_concat_lists. apply Forall2_fmap.
    eapply Forall2_impl; [exact Hms|]. intros idx [o' t'] Hstep.
    apply scene_step_points in Hstep as [Ho _]. exact Ho. }
  assert (Ht : concat ms.*2 = F (targets_mapped fd)).
  { etrans; [|apply (snd_zip (C (targets_mapped fd)) (F (targets_mapped fd))); lia].
    rewrite <- (concat_scenes (C (targets_mapped fd)) (F (targets_mapped fd)) n Hlen')
      by (rewrite Hcol; assumption).
    clear -Hms. induction Hms as [|idx [o' t'] idxs ms Hstep _ IH]; [reflexivity|].
    cbn [fmap list_fmap concat snd]. rewrite fmap_app. f_equal; [|exact IH].
    apply scene_step_points in Hstep as [_ ->]. reflexivity. }
  split; [exact Ht|]. rewrite Ht. apply Forall2_length in Ho.
  rewrite length_zip in Ho. lia.
Qed.
End PointOrder.

Lemma map_outputs_collated :
  map_outputs Z.gtb SampleRun.collated Sample.two_scenes_outputs
    = Ok ([0; 1; 0; 2], [7; 8; 7; 9]).
Proof. reflexivity. Qed.

Lemma map_outputs_point_order_witness :
  Forall2 (Points.point_class Z.gtb (lidar SampleRun.collated) Sample.two_scenes_outputs)
    (zip (Torch.C (inverse_map SampleRun.collated)) (Torch.F (inverse_map SampleRun.collated)))
    [0; 1; 0; 2].
Proof.
  apply (map_outputs_point_order Z.gtb SampleRun.collated Sample.two_scenes_outputs
           [0; 1; 0; 2] [7; 8; 7; 9]).
  - repeat constructor; discriminate.
  - repeat constructor; discriminate.
  - exact map_outputs_collated.
Defined.

Lemma map_outputs_targets_witness :
  [7; 8; 7; 9] = Torch.F (targets_mapped SampleRun.collated) /\
  length [0; 1; 0; 2] = length [7; 8; 7; 9].
Proof.
  apply (map_outputs_targets Z.gtb SampleRun.collated Sample.two_scenes_outputs
           [0; 1; 0; 2] [7; 8; 7; 9]).
  - repeat constructor; discriminate.
  - repeat constructor; discriminate.
  - reflexivity.
  - exact map_outputs_collated.
Defined.

Lemma unlisted_sequence_fails_witness :
  eval_step Z.gtb (Some "out"%string) SampleRun.sequence_11 [[1]] (setup_dirs Sample.args ∅).1
  = Err Library FileNotFoundError.
Proof.
  assert (Hok : (setup_dirs Sample.args ∅).2 = Ok ()) by reflexivity.
  assert (H11 : Os.entry_name "11").
  { split; [reflexivity | repeat split; intros H; discriminate H]. }
  assert (Hbase : Os.entry_name (Py.replace ".bin" ".label" "000000.bin")).
  { split; [reflexivity | repeat split; intros H; discriminate H]. }
  assert (Hnot : "11"%string ∉ sequence_names).
  { unfold sequence_names. intros H. apply list_elem_of_In in H. simpl in H.
    repeat (destruct H as [H|H]; [discriminate H|]). exact H. }
  assert (Hup : ".."%string ∉ Os.resolve "out").
  { intros H. apply list_elem_of_In in H. simpl in H.
    destruct H as [H|H]; [discriminate H | exact H]. }
  exact (unlisted_sequence_fails Z.gtb Sample.args "out" ∅ SampleRun.sequence_11 [[1]]
           ([0], [0]) "/data/sequences/11/velodyne/000000.bin" []
           [""; "data"; "sequences"]%string "11" "velodyne" "000000.bin"
           eq_refl Hup Hok H11 Hnot eq_refl eq_refl eq_refl Hbase eq_refl).
Defined.

(** ** A file where the directory of a sequence should be (lines 38-41 and 143-148) *)

Section FileInTheWay.
Context {feat score : Type} (gtb : score -> score -> bool).

(** X10.  A regular file at the place of the directory of a sequence
    passes the test of line 40: the set-up leaves it as it is and the
    step for a scan of this sequence fails with [NotADirectoryError]. *)
Theorem file_in_place_of_directory (args : Args) (s : string) (fs : Os.fsys)
    (fd : FeedDict feat) (outputs : list (list score)) mapped
    (first : string) (rest pre : list string) (sequence mid base : string)
    (content : list Z) :
  save_dir args = Some s ->
  Os.entry_name sequence ->
  Os.node_at fs (Os.resolve s ++ [sequence]) = Some (Os.File content) ->
  file_name fd = first :: rest ->
  Py.split "/" first = pre ++ [sequence; mid; base] ->
  Os.entry_name (Py.replace ".bin" ".label" base) ->
  map_outputs gtb fd outputs = Ok mapped ->
  Os.path_exists ((s +:+ "/") +:+ sequence) fs = true /\
  Os.node_at (setup_dirs args fs).1 (Os.resolve s ++ [sequence]) = Some (Os.File content) /\
  eval_step gtb (Some s) fd outputs (setup_dirs args fs).1 = Err Library NotADirectoryError.
Proof.
  intros Hsd Hseq Hfile Hname Hsplit Hbase Hmap.
  assert (Hkept : Os.node_at (setup_dirs args fs).1 (Os.resolve s ++ [sequence])
                  = Some (Os.File content)).
  { destruct (decide (Os.node_at (setup_dirs args fs).1 (Os.resolve s ++ [sequence])
                      = Os.node_at fs (Os.resolve s ++ [sequence]))) as [Heq|Hdiff].
    - rewrite Heq. exact Hfile.
    - unfold setup_dirs in Hdiff. apply setup_loop_frame in Hdiff as (Hnone & _).
      rewrite Hfile in Hnone. discriminate Hnone. }
  split; [|split; [exact Hkept|]].
  - apply path_exists_node. split.
    + intros H. apply (f_equal String.length) in H.
      rewrite !string_length_app in H. simpl in H. lia.
    + rewrite resolve_entry by exact Hseq. rewrite Hfile. eauto.
  - unfold eval_step. rewrite Hmap. cbn [mbind result_bind].
    rewrite (output_file_name_replace s fd first rest pre sequence mid base Hname Hsplit).
    cbn [mbind result_bind]. unfold Os.write_file.
    rewrite bool_decide_false.
    2:{ intros H. apply (f_equal String.length) in H.
        rewrite !string_length_app in H. simpl in H. lia. }
    rewrite label_path_resolve by assumption.
    replace (removelast (Os.resolve s ++ [sequence; Py.replace ".bin" ".label" base]))
      with (Os.resolve s ++ [sequence]).
    2:{ change [sequence; Py.replace ".bin" ".label" base]
          with ([sequence] ++ [Py.replace ".bin" ".label" base]).
        rewrite app_assoc, removelast_last. reflexivity. }
    rewrite Hkept. reflexivity.
Qed.
End FileInTheWay.

Lemma file_in_place_of_directory_witness :
  Os.path_exists "out/08" SampleRun.file_at_08 = true /\
  Os.node_at (setup_dirs Sample.args SampleRun.file_at_08).1 ["out"; "08"]%string
    = Some (Os.File []) /\
  eval_step Z.gtb (Some "out"%string) Sample.two_scenes Sample.two_scenes_outputs
    (setup_dirs Sample.args SampleRun.file_at_08).1 = Err Library NotADirectoryError.
Proof.
  assert (H08 : Os.entry_name "08").
  { split; [reflexivity | repeat split; intros H; discriminate H]. }
  assert (Hbase : Os.entry_name (Py.replace ".bin" ".label" "000123.bin")).
  { split; [reflexivity | repeat split; intros H; discriminate H]. }
  exact (file_in_place_of_directory Z.gtb Sample.args "out" SampleRun.file_at_08
           Sample.two_scenes Sample.two_scenes_outputs ([2; 1; 2; 0], [7; 8; 7; 9])
           "/data/sequences/08/velodyne/000123.bin" []
           [""; "data"; "sequences"]%string "08" "velodyne" "000123.bin" []
           eq_refl H08 eq_refl eq_refl eq_refl Hbase eq_refl).
Defined.

(** ** When the output file has a name (lines 143-144) *)

Lemma last_three {A} (xs : list A) :
  (3 <= length xs)%nat -> exists pre x y z, xs = pre ++ [x; y; z].
Proof.
  intros Hlen. exists (take (length xs - 3) xs).
  pose proof (take_drop (length xs - 3) xs) as Hsplit.
  pose proof (length_drop xs (length xs - 3)) as Hdrop.
  destruct (drop (length xs - 3) xs) as [|x [|y [|z [|w l]]]]; simpl in Hdrop; try lia.
  exists x, y, z. symmetry. exact Hsplit.
Qed.

Section FileNameDefined.
Context {feat score : Type} (gtb : score -> score -> bool).

(** X15.  With a save directory, lines 143-144 name an output file
    exactly for a batch with a first file name of at least three
    components; with no file name or a shorter path they fail, with
    [IndexError], and no step for such a batch ends well. *)
Theorem output_file_name_defined (s : string) (fd : FeedDict feat) :
  ((exists path, output_file_name (Some s) fd = Ok path) <->
     exists first rest,
       file_name fd = first :: rest /\ (3 <= length (Py.split "/" first))%nat) /\
  (forall o e, output_file_name (Some s) fd = Err o e ->
     o = Library /\ e = IndexError /\
     (file_name fd = [] \/
      exists first rest,
        file_name fd = first :: rest /\ (length (Py.split "/" first) < 3)%nat)) /\
  (forall (outputs : list (list score)) fs fs',
     eval_step gtb (Some s) fd outputs fs = Ok fs' ->
     exists first rest,
       file_name fd = first :: rest /\ (3 <= length (Py.split "/" first))%nat).
Proof.
  assert (Hok : forall first rest,
             file_name fd = first :: rest -> (3 <= length (Py.split "/" first))%nat ->
             exists path, output_file_name (Some s) fd = Ok path).
  { intros first rest Hname Hlen.
    destruct (last_three _ Hlen) as (pre & sequence & mid & base & Hsplit).
    eexists. exact (output_file_name_replace s fd first rest pre sequence mid base
                      Hname Hsplit). }
  assert (Hinv : forall path, output_file_name (Some s) fd = Ok path ->
             exists first rest,
               file_name fd = first :: rest /\ (3 <= length (Py.split "/" first))%nat).
  { intros path Hpath.
    apply output_file_name_inv in Hpath
      as (s' & first & pre & sequence & mid & base & _ & Hhead & Hsplit & _).
    destruct (file_name fd) as [|first' rest] eqn:Hname; [discriminate Hhead|].
    injection Hhead as ->. exists first, rest. split; [reflexivity|].
    rewrite Hsplit, length_app. simpl. lia. }
  split; [split|split].
  - intros [path Hpath]. exact (Hinv path Hpath).
  - intros (first & rest & Hname & Hlen). exact (Hok first rest Hname Hlen).
  - intros o e Herr.
    assert (Hoe : o = Library /\ e = IndexError).
    { unfold output_file_name in Herr.
      destruct (Py.index (file_name fd) 0) as [first|o0 e0] eqn:H0;
        cbn [mbind result_bind opt_add] in Herr.
      2:{ injection Herr as <- <-. eapply index_Err. exact H0. }
      destruct (Py.index (Py.split "/" first) (-3)) as [sequence|o1 e1] eqn:H1;
        cbn [mbind result_bind] in Herr.
      2:{ injection Herr as <- <-. eapply index_Err. exact H1. }
      destruct (Py.index (Py.split "/" first) (-1)) as [base|o2 e2] eqn:H2;
        cbn [mbind result_bind] in Herr.
      2:{ injection Herr as <- <-. eapply index_Err. exact H2. }
      discriminate Herr. }
    destruct Hoe as [-> ->]. split; [reflexivity|]. split; [reflexivity|].
    destruct (file_name fd) as [|first rest] eqn:Hname; [left; reflexivity|].
    right. exists first, rest. split; [reflexivity|].
    destruct (decide (length (Py.split "/" first) < 3)%nat) as [Hlt|Hge]; [exact Hlt|].
    destruct (Hok first rest eq_refl) as [path Hpath]; [lia|].
    rewrite Hpath in Herr. discriminate Herr.
  - intros outputs fs fs' (mapped & path & _ & Hpath & _)%eval_step_Ok.
    exact (Hinv path Hpath).
Qed.
End FileNameDefined.

(** ** A slash after the save directory (lines 38-41 and 143-148) *)

Lemma resolve_app (a b : string) :
  Os.resolve (a +:+ String "/" b)
  = Os.resolve a ++ List.filter Os.proper_component (Py.split "/" b).
Proof.
  unfold Os.resolve. rewrite split_app.
  pose proof (split_nonempty "/" a).
  destruct (Py.split "/" a) as [|h t]; [contradiction|].
  change ((h :: t) ++ Py.split "/" b) with (h :: (t ++ Py.split "/" b)). cbv beta iota.
  rewrite List.filter_app, <- app_assoc. reflexivity.
Qed.


Lemma slash_nonempty (s x : string) : (s +:+ "/") +:+ x <> ""%string.
Proof.
  intros H. apply (f_equal String.length) in H.
  rewrite !string_length_app in H. simpl in H. lia.
Qed.



Section TrailingSlash.
Context {feat score Dataset : Type} (gtb : score -> score -> bool).
Context (opts : list string) (lower : string -> string).
Context (start_up : string -> list string -> option string -> Os.fsys
                    -> Os.fsys * outcome Configs).
Context (dataset : list (string * Dataset)).
Context (batches_of : DataLoader Dataset -> list (FeedDict feat)).
Context (dist_size dist_rank : Z).
Context (spvnas_specialized spvcnn minkunet
           : string -> Torch.SparseTensor feat -> list (list score)).
Context (make_trainer : Configs -> (Torch.SparseTensor feat -> list (list score)) -> Os.fsys
                        -> Os.fsys * outcome unit).
Context (before_epoch after_epoch : Os.fsys -> Os.fsys * outcome unit).

Let run := main gtb opts lower start_up dataset batches_of dist_size dist_rank
             spvnas_specialized spvcnn minkunet make_trainer before_epoch after_epoch.



End TrailingSlash.


(** ** A file where the save directory should be (lines 38-41) *)

Lemma makedirs_under_file (s : string) (fs : Os.fsys) (content : list Z) (c : string) :
  Os.entry_name c ->
  Os.node_at fs (Os.resolve s) = Some (Os.File content) ->
  Os.node_at fs (Os.resolve s ++ [c]) = None ->
  Os.path_exists ((s +:+ "/") +:+ c) fs = false /\
  Os.makedirs ((s +:+ "/") +:+ c) fs = Err Library NotADirectoryError.
Proof.
  intros Hc Hfile Hnone. split.
  - destruct (Os.path_exists _ fs) eqn:Hex; [|reflexivity].
    apply path_exists_node in Hex as [_ Hsome].
    rewrite resolve_entry, Hnone in Hsome by exact Hc. destruct Hsome as [n Hn].
    discriminate Hn.
  - unfold Os.makedirs.
    rewrite (bool_decide_false (_ = ""%string)) by apply slash_nonempty.
    cbv zeta. rewrite resolve_entry by exact Hc. rewrite Hnone.
    rewrite bool_decide_false by (intros [n Hn]; discriminate Hn).
    replace (existsb (Os.is_file fs) (Os.prefixes (Os.resolve s ++ [c]))) with true;
      [reflexivity|].
    symmetry. apply existsb_exists. exists (Os.resolve s). split.
    + apply list_elem_of_In, elem_of_prefixes. split; [exists [c]; reflexivity|].
      intros Hnil. rewrite Hnil in Hfile. discriminate Hfile.
    + unfold Os.is_file. rewrite Hfile. reflexivity.
Qed.

Section SaveDirIsFile.
Context {feat score Dataset : Type} (gtb : score -> score -> bool).
Context (opts : list string) (lower : string -> string).
Context (start_up : string -> list string -> option string -> Os.fsys
                    -> Os.fsys * outcome Configs).
Context (dataset : list (string * Dataset)).
Context (batches_of : DataLoader Dataset -> list (FeedDict feat)).
Context (dist_size dist_rank : Z).
Context (spvnas_specialized spvcnn minkunet
           : string -> Torch.SparseTensor feat -> list (list score)).
Context (make_trainer : Configs -> (Torch.SparseTensor feat -> list (list score)) -> Os.fsys
                        -> Os.fsys * outcome unit).
Context (before_epoch after_epoch : Os.fsys -> Os.fsys * outcome unit).

Let run := main gtb opts lower start_up dataset batches_of dist_size dist_rank
             spvnas_specialized spvcnn minkunet make_trainer before_epoch after_epoch.

(** X17.  When the save directory is a regular file, the first turn of
    the loop of lines 38-41 fails with [NotADirectoryError], and with it
    the script, before anything is created. *)
Theorem save_dir_is_a_file (args : Args) (s : string) (fs : Os.fsys) (content : list Z) :
  save_dir args = Some s ->
  Os.node_at fs (Os.resolve s) = Some (Os.File content) ->
  Os.node_at fs (Os.resolve s ++ ["00"%string]) = None ->
  setup_dirs args fs = (fs, Err Library NotADirectoryError) /\
  run args fs = (fs, Err Library NotADirectoryError).
Proof.
  intros Hsd Hfile Hnone.
  assert (Hsetup : setup_dirs args fs = (fs, Err Library NotADirectoryError)).
  { unfold setup_dirs. rewrite Hsd.
    change (Py.range 11) with (0 :: (Z.of_nat <$> seq 1 10)).
    rewrite setup_loop_cons.
    change (dir_path s 0) with ((s +:+ "/") +:+ "00").
    destruct (makedirs_under_file s fs content "00") as [-> ->]; try assumption.
    - split; [reflexivity | repeat split; intros H; discriminate H].
    - reflexivity. }
  split; [exact Hsetup|]. unfold run, main. rewrite Hsetup. reflexivity.
Qed.
End SaveDirIsFile.

Lemma save_dir_is_a_file_witness :
  setup_dirs Sample.args SampleRun.file_at_out
    = (SampleRun.file_at_out, Err Library NotADirectoryError) /\
  SampleRun.run Sample.args SampleRun.file_at_out
    = (SampleRun.file_at_out, Err Library NotADirectoryError).
Proof.
  exact (save_dir_is_a_file Z.gtb [] Py.lower_ascii_text
           (fun _ _ _ => SampleRun.quiet Sample.configs) SampleRun.dataset
           SampleRun.batches_of 2 0 (Sample.zoo 1) (Sample.zoo 2) (Sample.zoo 3)
           (fun _ _ => SampleRun.quiet ()) (SampleRun.quiet ()) (SampleRun.quiet ())
           Sample.args "out" SampleRun.file_at_out [] eq_refl eq_refl eq_refl).
Defined.

(** ** A run of [main] *)

Lemma quiet_leaves {A} (q : list string) (a : A) : Os.leaves q (SampleRun.quiet a).
Proof. intros fs r _. reflexivity. Qed.

(** The label file of a batch is under the save directory. *)
Lemma output_file_name_under {feat} (s : string) (fd : FeedDict feat) path :
  output_file_name (Some s) fd = Ok path -> Os.resolve s `prefix_of` Os.resolve path.
Proof.
  intros (s' & first & pre & sequence & mid & base & [= <-] & _ & _ & ->)%output_file_name_inv.
  rewrite (string_app_assoc s "/" _).
  change ("/" +:+ sequence +:+ "/" +:+ Py.replace ".bin" ".label" base)
    with (String "/" (sequence +:+ "/" +:+ Py.replace ".bin" ".label" base)).
  rewrite resolve_app. apply prefix_app_r. reflexivity.
Qed.

Section Run.
Context {feat score Dataset : Type} (gtb : score -> score -> bool).
Context (opts : list string) (lower : string -> string).
Context (start_up : string -> list string -> option string -> Os.fsys
                    -> Os.fsys * outcome Configs).
Context (dataset : list (string * Dataset)).
Context (batches_of : DataLoader Dataset -> list (FeedDict feat)).
Context (dist_size dist_rank : Z).
Context (spvnas_specialized spvcnn minkunet
           : string -> Torch.SparseTensor feat -> list (list score)).
Context (make_trainer : Configs -> (Torch.SparseTensor feat -> list (list score)) -> Os.fsys
                        -> Os.fsys * outcome unit).
Context (before_epoch after_epoch : Os.fsys -> Os.fsys * outcome unit).

Let select := select_model lower spvnas_specialized spvcnn minkunet.
Let run := main gtb opts lower start_up dataset batches_of dist_size dist_rank
             spvnas_specialized spvcnn minkunet make_trainer before_epoch after_epoch.

(** X6.  Without [--save-dir] the script fails with [TypeError] in the
    first turn of the loop of lines 38-41, before it has created
    anything. *)
Theorem main_no_save_dir (args : Args) (fs : Os.fsys) :
  save_dir args = None -> run args fs = (fs, Err Library TypeError).
Proof.
  intros Hsd. unfold run, main, setup_dirs. rewrite Hsd. reflexivity.
Qed.


(** X9.  With a [--save-dir] without a component [..] and
    collaborators that leave the save directory alone: when the script
    ends well, the split [test] has a loader; each of the eleven paths
    [00] to [10] under [--save-dir] holds a directory, or a regular file
    where a regular file was before the run; and the label file of every
    batch of the loader is in the file system, at the path lines 143-144
    give for the batch, when this path has no component [..]. *)
Theorem main_labels_written (args : Args) (s : string) (fs : Os.fsys) :
  save_dir args = Some s ->
  ".."%string ∉ Os.resolve s ->
  Os.leaves (Os.resolve s) (start_up (config args) opts (run_dir args)) ->
  (forall configs model, Os.leaves (Os.resolve s) (make_trainer configs model)) ->
  Os.leaves (Os.resolve s) before_epoch ->
  Os.leaves (Os.resolve s) after_epoch ->
  (run args fs).2 = Ok () ->
  exists configs loader,
    (start_up (config args) opts (run_dir args) (setup_dirs args fs).1).2 = Returns configs /\
    make_dataflow dist_size dist_rank configs dataset !! "test"%string = Some loader /\
    (forall c, c ∈ sequence_names ->
       Os.node_at (run args fs).1 (Os.resolve s ++ [c]) = Some Os.Dir \/
       exists content content',
         Os.node_at fs (Os.resolve s ++ [c]) = Some (Os.File content) /\
         Os.node_at (run args fs).1 (Os.resolve s ++ [c]) = Some (Os.File content')) /\
    (forall fd, fd ∈ batches_of loader ->
       exists path,
         output_file_name (Some s) fd = Ok path /\
         (".."%string ∉ Os.resolve path ->
          exists bytes,
            Os.node_at (run args fs).1 (Os.resolve path) = Some (Os.File bytes))).
Proof.
  intros Hsd _ Lstart Ltrainer Lbefore Lafter Hok.
  pose proof (setup_dirs_nodes args fs s Hsd) as Hnodes.
  unfold run, main in Hok |- *.
  destruct (setup_dirs args fs) as [fs1 r1]. destruct r1 as [[]|o e]; [|discriminate Hok].
  specialize (Hnodes eq_refl). cbn [fst] in Hnodes |- *.
  pose proof (Lstart fs1) as L2.
  destruct (start_up _ _ _ fs1) as [fs2 [configs|e]]; [|discriminate Hok].
  destruct (select_model _ _ _ _ args) as [model|o e]; [|discriminate Hok].
  pose proof (Ltrainer configs model fs2) as L3.
  destruct (make_trainer configs model fs2) as [fs3 [[]|e]]; [|discriminate Hok].
  destruct (make_dataflow _ _ _ _ !! "test"%string) as [loader|] eqn:Hloader;
    [|discriminate Hok].
  pose proof (Lbefore fs3) as L4.
  destruct (before_epoch fs3) as [fs4 [[]|e]]; [|discriminate Hok].
  pose proof (eval_loop_files gtb (save_dir args) model (batches_of loader) fs4) as Hfiles.
  pose proof (eval_loop_changes gtb (save_dir args) model (batches_of loader) fs4) as Hchanges.
  destruct (eval_loop gtb (save_dir args) model (batches_of loader) fs4) as [fs5 r5].
  destruct r5 as [[]|o e]; [|discriminate Hok].
  pose proof (Lafter fs5) as L6.
  destruct (after_epoch fs5) as [fs6 [[]|e]]; [|discriminate Hok].
  cbn [fst snd] in *. rewrite Hsd in Hfiles.
  assert (Hbefore : forall r, Os.resolve s `prefix_of` r -> Os.node_at fs4 r = Os.node_at fs1 r).
  { intros r Hr. rewrite (L4 r Hr), (L3 r Hr), (L2 r Hr). reflexivity. }
  exists configs, loader. split; [reflexivity|]. split; [exact Hloader|]. split.
  - intros c Hc.
    assert (Hpre : Os.resolve s `prefix_of` Os.resolve s ++ [c])
      by (apply prefix_app_r; reflexivity).
    rewrite (L6 _ Hpre).
    destruct (decide (Os.node_at fs5 (Os.resolve s ++ [c])
                      = Os.node_at fs4 (Os.resolve s ++ [c]))) as [Heq|Hdiff].
    + rewrite Heq, (Hbefore _ Hpre).
      destruct (Hnodes c Hc) as [Hdir|(content & Hfs & Hfile)]; [left; exact Hdir|].
      right. exists content, content. split; assumption.
    + destruct (Hchanges _ Hdiff) as (Hnot & fd & path & bytes & _ & _ & _ & Hfile).
      rewrite (Hbefore _ Hpre) in Hnot.
      destruct (Hnodes c Hc) as [Hdir|(content & Hfs & _)]; [contradiction|].
      right. exists content, bytes. split; assumption.
  - intros fd Hfd. destruct (Hfiles fd eq_refl Hfd) as (path & bytes & Hpath & Hfile).
    exists path. split; [exact Hpath|]. intros _. exists bytes.
    rewrite (L6 _ (output_file_name_under s fd path Hpath)). exact Hfile.
Qed.
End Run.

Lemma sample_run_ok : (SampleRun.run Sample.args ∅).2 = Ok ().
Proof. vm_compute. reflexivity. Defined.

Lemma main_labels_written_witness :
  Os.node_at (SampleRun.run Sample.args ∅).1 ["out"; "08"]%string = Some Os.Dir /\
  exists bytes,
    Os.node_at (SampleRun.run Sample.args ∅).1 ["out"; "08"; "000123.label"]%string
    = Some (Os.File bytes).
Proof.
  assert (Hup : ".."%string ∉ Os.resolve "out").
  { intros H. apply list_elem_of_In in H. simpl in H.
    destruct H as [H|H]; [discriminate H | exact H]. }
  destruct (main_labels_written Z.gtb [] Py.lower_ascii_text
           (fun _ _ _ => SampleRun.quiet Sample.configs) SampleRun.dataset
           SampleRun.batches_of 2 0 (Sample.zoo 1) (Sample.zoo 2) (Sample.zoo 3)
           (fun _ _ => SampleRun.quiet ()) (SampleRun.quiet ()) (SampleRun.quiet ())
              Sample.args "out" ∅ eq_refl Hup (quiet_leaves _ _)
              (fun _ _ => quiet_leaves _ _) (quiet_leaves _ _) (quiet_leaves _ _)
              sample_run_ok)
    as (configs & loader & _ & _ & Hdirs & Hfiles).
  split.
  - destruct (Hdirs "08"%string) as [Hdir|(content & content' & Hfs & _)].
    + unfold sequence_names. do 8 right; left.
    + exact Hdir.
    + discriminate Hfs.
  - destruct (Hfiles Sample.two_scenes) as (path & Hpath & Hfile); [left|].
    injection Hpath as <-. apply Hfile.
    intros H. apply list_elem_of_In in H. simpl in H.
    repeat (destruct H as [H|H]; [discriminate H|]). exact H.
Defined.

Lemma main_no_save_dir_witness :
  SampleRun.run SampleRun.no_save_dir ∅ = (∅, Err Library TypeError).
Proof.
  exact (main_no_save_dir Z.gtb [] Py.lower_ascii_text
           (fun _ _ _ => SampleRun.quiet Sample.configs) SampleRun.dataset
           SampleRun.batches_of 2 0 (Sample.zoo 1) (Sample.zoo 2) (Sample.zoo 3)
           (fun _ _ => SampleRun.quiet ()) (SampleRun.quiet ()) (SampleRun.quiet ())
           SampleRun.no_save_dir ∅ eq_refl).
Defined.

